(** * Checkpoint loading and tensor-parallel sharding
    (optimum/habana/distributed/serialization.py)

    A shallow embedding of the serialization module: the adapter registry,
    the lazy safetensors dictionary, checkpoint discovery in
    [load_state_dict], the per-key loop of [load_state_dict_into_model],
    the module-tree walk of [_load_partial_state_dict] and the sharding
    copies [_copy_colwise], [_copy_rowwise], [_copy_embedding].

    Python exceptions are values of [exn]; a computation that can raise
    returns a [result], and one that also mutates returns an [outcome]
    that keeps the state reached when the exception was raised.

    What lies outside the module is modelled as follows.
    - Tensors have rank at most two (bias vectors and weight matrices).
      Their elements are values of an arbitrary type; the dtype of a
      parameter is the conversion [copy_] applies to every element it
      writes into that parameter, a function on values (the identity
      when source and parameter have the same dtype). The copies run
      as [load_state_dict_into_model] runs them, with gradients
      switched off.
    - The parameters of the model are references into a heap of tensor
      contents; the module tree itself is never changed by the loader.
    - Ranks and world sizes are natural numbers.
    - The file system, [pathlib] and the tensor readers are a record of
      functions, and every call to them is logged as an [io_event].
    - A [ChainMap] lists its keys as Python 3.9 and later do, without
      reading the values.
    - A checkpoint key names modules, containers and, with its last
      step, a parameter. The attributes of a tensor, and of what
      indexing a tensor gives, are not modelled: a lookup on them
      fails. *)

From Stdlib Require Import ZArith List String Ascii Lia Permutation Sorted.
From stdpp Require Import base gmap strings list pretty functions.

Set Warnings "-clear-no-such-hyp".

Open Scope string_scope.
Open Scope list_scope.

(** ** Exceptions and results *)

(** The exceptions the loader meets. [KeyError] carries its argument
    and [ValueError] its message; [InvalidLiteral s] is the ValueError
    that [int(s)] raises, told by the literal it refuses. *)
Inductive exn :=
| AttributeError
| KeyError (k : string)
| IndexError
| ValueError (msg : string)
| InvalidLiteral (literal : string)
| RuntimeError
| TypeError
| AssertionError
| SafetensorError
| OSError
| FusableWeightsMissingError (missing_weights : list string).

Inductive result (T : Type) :=
| Ok (x : T)
| Raise (e : exn).
Arguments Ok {T} x.
Arguments Raise {T} e.

Definition rbind {T U} (r : result T) (k : T -> result U) : result U :=
  match r with
  | Ok x => k x
  | Raise e => Raise e
  end.

Notation "'let?' x ':=' r 'in' k" := (rbind r (fun x => k))
  (at level 10, x pattern, r at level 100, k at level 200).

(** A stateful computation ends normally in a state, or by an exception in
    the state reached so far. *)
Inductive outcome (S : Type) :=
| Done (s : S)
| Raised (e : exn) (s : S).
Arguments Done {S} s.
Arguments Raised {S} e s.

(** ** Python slices on sequences *)

(** [l[a:b]] for indices [0 <= a], [0 <= b]: both ends are clamped to the
    length, and an empty range gives the empty sequence. *)
Definition py_slice {X} (a b : nat) (l : list X) : list X :=
  take (b - a) (drop a l).

(** Length of [l[a:b]] when [l] has length [n]. *)
Definition slice_len (a b n : nat) : nat := min (b - a) (n - a).

(** [l[i]] for a Python int [i]: negative indices count from the end. *)
Definition py_index {X} (l : list X) (i : Z) : option X :=
  if (0 <=? i)%Z then l !! Z.to_nat i
  else if (- Z.of_nat (length l) <=? i)%Z then l !! Z.to_nat (Z.of_nat (length l) + i)
  else None.

(** ** Strings of checkpoint keys *)

(** [key.split(".")]: never empty; an empty key gives one empty step. *)
Fixpoint split_dot (s : string) : list string :=
  match s with
  | EmptyString => [EmptyString]
  | String c s' =>
      if Ascii.eqb c "."%char then EmptyString :: split_dot s'
      else match split_dot s' with
           | [] => [String c EmptyString]
           | w :: ws => String c w :: ws
           end
  end.

Definition digit_of (c : ascii) : option Z :=
  let n := nat_of_ascii c in
  if (48 <=? n)%nat && (n <=? 57)%nat then Some (Z.of_nat (n - 48)) else None.

(** The blanks [int] skips around a literal: tab, line feed, vertical
    tab, form feed, carriage return and the space. *)
Definition is_space (c : ascii) : bool :=
  let n := nat_of_ascii c in
  ((9 <=? n)%nat && (n <=? 13)%nat) || (n =? 32)%nat.

Fixpoint lstrip (s : string) : string :=
  match s with
  | String c s' => if is_space c then lstrip s' else s
  | EmptyString => EmptyString
  end.

Fixpoint all_space (s : string) : bool :=
  match s with
  | String c s' => is_space c && all_space s'
  | EmptyString => true
  end.

(** The digits of a literal, read from the left onto [acc]. An
    underscore may stand between two digits and nowhere else;
    [after_digit] tells whether the character before was a digit. The
    result is the value and the text left after the digits. *)
Fixpoint parse_digits (acc : Z) (after_digit : bool) (s : string) : option (Z * string) :=
  match s with
  | EmptyString => if after_digit then Some (acc, EmptyString) else None
  | String c s' =>
      match digit_of c with
      | Some d => parse_digits (10 * acc + d)%Z true s'
      | None =>
          if Ascii.eqb c "_"%char
          then (if after_digit then parse_digits acc false s' else None)
          else (if after_digit then Some (acc, s) else None)
      end
  end.

(** [int(s)] in base ten on a string of ASCII characters: blanks, an
    optional sign, decimal digits with single underscores between them,
    blanks. Anything else is the ValueError of [int], here
    [InvalidLiteral s]. Keys are strings of bytes: the digits and blanks
    outside ASCII, which Python also accepts, are not recognised. *)
Definition py_int (s : string) : result Z :=
  let digits (ds : string) :=
    match parse_digits 0 false ds with
    | Some (z, rest) => if all_space rest then Some z else None
    | None => None
    end in
  let parsed :=
    match lstrip s with
    | String "-"%char ds => Z.opp <$> digits ds
    | String "+"%char ds => digits ds
    | ds => digits ds
    end in
  match parsed with
  | Some z => Ok z
  | None => Raise (InvalidLiteral s)
  end.


(** [key_steps[-1]] and [key_steps[-2]] *)
Definition last_step (key_steps : list string) : string :=
  List.last key_steps EmptyString.

Definition parent_step (key_steps : list string) : result string :=
  match py_index key_steps (-2) with
  | Some s => Ok s
  | None => Raise IndexError
  end.

(** [x is None] *)
Definition is_none {X} (o : option X) : bool :=
  match o with
  | None => true
  | Some _ => false
  end.

(** [name in names] *)
Definition name_in (name : string) (names : list string) : bool :=
  bool_decide (name ∈ names).

(** ** Devices *)

Record device := { dev_type : string; dev_index : option nat }.

Global Instance device_eq_dec : EqDecision device.
Proof. solve_decision. Defined.

(** ** The destination module tree *)

(** The three name lists a [TPModule] declares. *)
Record tp_names := {
  colwise_param_names : list string;
  rowwise_param_names : list string;
  embedding_param_names : list string }.

(** Objects reached from the model by attribute and index lookups.
    A parameter or buffer is a reference into the heap of tensor
    contents, so that [copy_] mutates what every holder of the
    reference sees. [Module tp attrs] is an [nn.Module] with its named
    attributes, a [TPModule] when [tp] is given; [ModuleList] is an
    indexable, iterable container of children ([nn.ModuleList],
    [nn.Sequential]; containers indexed by name are not modelled);
    [Opaque] is any other Python value (a method, a flag, an element of
    a tensor), on which no step of a checkpoint key is an attribute. *)
#[local] Unset Elimination Schemes.
Inductive Obj :=
| Param (ref : nat)
| Module (tp : option tp_names) (attrs : list (string * Obj))
| ModuleList (items : list Obj)
| Opaque.
#[local] Set Elimination Schemes.

Fixpoint assoc {V} (k : string) (l : list (string * V)) : option V :=
  match l with
  | [] => None
  | (k', v) :: l' => if String.eqb k k' then Some v else assoc k l'
  end.

(** Children of a container are registered under [str(i)]. *)
Fixpoint child_named (i : nat) (items : list Obj) (name : string) : option Obj :=
  match items with
  | [] => None
  | o :: items' =>
      if String.eqb (pretty i) name then Some o
      else child_named (S i) items' name
  end.

(** [getattr(o, name)]; [None] stands for AttributeError. *)
Definition getattr (o : Obj) (name : string) : option Obj :=
  match o with
  | Module _ attrs => assoc name attrs
  | ModuleList items => child_named 0 items name
  | Param _ => None
  | Opaque => None
  end.

(** [isinstance(o, Iterable)]: containers, and tensors too. *)
Definition is_iterable (o : Obj) : bool :=
  match o with
  | ModuleList _ => true
  | Param _ => true
  | _ => false
  end.

(** [isinstance(o, TPModule)], with the names it declares. *)
Definition as_tp_module (o : Obj) : option tp_names :=
  match o with
  | Module tp _ => tp
  | _ => None
  end.

(** ** Python dicts in insertion order

    A dict is the list of its items in insertion order, with distinct
    keys. *)

Definition dict_get {V} (k : string) (d : list (string * V)) : option V := assoc k d.

(** [d[k] = v]: an existing key keeps its place, a new key goes last. *)
Fixpoint dict_set {V} (k : string) (v : V) (d : list (string * V)) : list (string * V) :=
  match d with
  | [] => [(k, v)]
  | (k', v') :: d' =>
      if String.eqb k k' then (k, v) :: d' else (k', v') :: dict_set k v d'
  end.

(** [del d[k]] *)
Fixpoint dict_del {V} (k : string) (d : list (string * V)) : list (string * V) :=
  match d with
  | [] => []
  | (k', v') :: d' =>
      if String.eqb k k' then dict_del k d' else (k', v') :: dict_del k d'
  end.

Definition dict_keys {V} (d : list (string * V)) : list string := d.*1.

(** Keys of a list in order of first occurrence, skipping those in [seen]. *)
Fixpoint first_occurrences (seen : list string) (l : list string) : list string :=
  match l with
  | [] => []
  | k :: l' =>
      if bool_decide (k ∈ seen) then first_occurrences seen l'
      else k :: first_occurrences (k :: seen) l'
  end.

(** ** Files *)

(** What the loader asks of the file system, of [pathlib] and of the
    tensor readers. Paths are strings. A reader that fails raises its
    own exception class, never KeyError or AttributeError. *)
Inductive io_event :=
| IsDir (path : string)
| IsFile (path : string)
| Glob (path pattern : string)
| SafeOpenKeys (file : string)
| GetTensor (file key : string) (dev : device)
| TorchLoad (file : string) (dev : device).

(** ** Paths *)

(** [s.partition("*")]: the text before the first star, the star when
    there is one, and the text after it. *)
Fixpoint partition_star (s : string) : string * string * string :=
  match s with
  | EmptyString => (EmptyString, EmptyString, EmptyString)
  | String c s' =>
      if Ascii.eqb c "*"%char then (EmptyString, "*", s')
      else let '(before, sep, after) := partition_star s' in (String c before, sep, after)
  end.

(** The parts of a path, for the paths a glob gives below one
    directory: the text between the separators. *)
Fixpoint path_parts (p : string) : list string :=
  match p with
  | EmptyString => [EmptyString]
  | String c p' =>
      if Ascii.eqb c "/"%char then EmptyString :: path_parts p'
      else match path_parts p' with
           | [] => [String c EmptyString]
           | w :: ws => String c w :: ws
           end
  end.

(** The order of [Path] objects: that of their lists of parts, a part
    after a part, each part as a string. *)
Fixpoint parts_compare (l1 l2 : list string) : comparison :=
  match l1, l2 with
  | [], [] => Eq
  | [], _ :: _ => Lt
  | _ :: _, [] => Gt
  | a :: l1', b :: l2' =>
      match String.compare a b with
      | Eq => parts_compare l1' l2'
      | c => c
      end
  end.

Definition path_leb (p q : string) : bool :=
  match parts_compare (path_parts p) (path_parts q) with
  | Gt => false
  | _ => true
  end.

(** [sorted(file_list)] on a list of [Path] objects: a stable insertion
    sort in the order of paths. *)
Fixpoint insert_sorted (p : string) (l : list string) : list string :=
  match l with
  | [] => [p]
  | q :: l' => if path_leb p q then p :: l else q :: insert_sorted p l'
  end.

Definition sorted (l : list string) : list string := foldr insert_sorted [] l.

(** The [model_path] argument: a [str] or a [Path]. *)
Inductive path_arg :=
| StrPath (s : string)
| PathObj (p : string).

(** ** Tensors *)

Section Serialization.

(** Element type of the tensors and the value written by [zero_()]. *)
Variable A : Type.
Variable zero : A.

(** Tensor contents by rank: a scalar, a vector (bias), or a matrix
    (weight) given by its rows together with its number of columns, so
    that a matrix with no rows still has a second dimension. *)
Inductive tdata :=
| T0 (x : A)
| T1 (v : list A)
| T2 (ncols : nat) (rows : list (list A)).

Definition shape (t : tdata) : list nat :=
  match t with
  | T0 _ => []
  | T1 v => [length v]
  | T2 c rows => [length rows; c]
  end.

(** Every row of a matrix has the declared number of columns. *)
Definition well_formed (t : tdata) : Prop :=
  match t with
  | T2 c rows => Forall (fun r => length r = c) rows
  | _ => True
  end.

(** [t.shape[i]]: indexing the shape tuple raises IndexError past its end. *)
Definition shape_at (t : tdata) (i : nat) : result nat :=
  match shape t !! i with
  | Some n => Ok n
  | None => Raise IndexError
  end.

(** [t[a:b, :]]: needs at least two dimensions. *)
Definition slice_rows (a b : nat) (t : tdata) : result tdata :=
  match t with
  | T2 c rows => Ok (T2 c (py_slice a b rows))
  | _ => Raise IndexError
  end.

(** [t[a:b]]: slices the first dimension. *)
Definition slice_first (a b : nat) (t : tdata) : result tdata :=
  match t with
  | T0 _ => Raise IndexError
  | T1 v => Ok (T1 (py_slice a b v))
  | T2 c rows => Ok (T2 c (py_slice a b rows))
  end.

(** [t[:, a:b]]: slices the second dimension of a matrix. *)
Definition slice_cols (a b : nat) (t : tdata) : result tdata :=
  match t with
  | T2 c rows => Ok (T2 (slice_len a b c) (map (py_slice a b) rows))
  | _ => Raise IndexError
  end.

(** Broadcasting one dimension to size [n]: equal sizes are kept, a
    dimension of size one is repeated, anything else does not broadcast. *)
Definition expand {X} (n : nat) (l : list X) : option (list X) :=
  if decide (length l = n) then Some l
  else match l with
       | [x] => Some (replicate n x)
       | _ => None
       end.

Fixpoint expand_rows (c : nat) (rows : list (list A)) : option (list (list A)) :=
  match rows with
  | [] => Some []
  | r :: rows' =>
      match expand c r, expand_rows c rows' with
      | Some r', Some rs => Some (r' :: rs)
      | _, _ => None
      end
  end.

(** The dtype of a destination, as far as the loader meets it: the
    conversion of a value to that dtype. *)
Abbreviation dtype := (A -> A).

(** [param.copy_(src)], for a destination of dtype [dt]: the source is
    broadcast to the shape of the destination, whose shape never
    changes, and every element is converted to the dtype of the
    destination; a source that does not broadcast to it raises
    RuntimeError. *)
Definition copy_ (dt : dtype) (param src : tdata) : result tdata :=
  match param, src with
  | T0 _, T0 x => Ok (T0 (dt x))
  | T1 v, T0 x => Ok (T1 (replicate (length v) (dt x)))
  | T1 v, T1 w =>
      match expand (length v) w with
      | Some w' => Ok (T1 (map dt w'))
      | None => Raise RuntimeError
      end
  | T2 c rows, T0 x => Ok (T2 c (replicate (length rows) (replicate c (dt x))))
  | T2 c rows, T1 w =>
      match expand c w with
      | Some w' => Ok (T2 c (replicate (length rows) (map dt w')))
      | None => Raise RuntimeError
      end
  | T2 c rows, T2 c' rows' =>
      if decide (c' = c \/ c' = 1) then
        match expand_rows c rows' with
        | Some rs =>
            match expand (length rows) rs with
            | Some rs' => Ok (T2 c (map (map dt) rs'))
            | None => Raise RuntimeError
            end
        | None => Raise RuntimeError
        end
      else Raise RuntimeError
  | _, _ => Raise RuntimeError
  end.

(** [param.zero_()] *)
Definition zero_ (param : tdata) : tdata :=
  match param with
  | T0 _ => T0 zero
  | T1 v => T1 (replicate (length v) zero)
  | T2 c rows => T2 c (replicate (length rows) (replicate c zero))
  end.

(** ** The sharding copies *)

(** In the four copies [dt] is the dtype of the parameter. *)
Definition _copy_if_present (dt : dtype) (parameter tensor_value : tdata) : result tdata :=
  copy_ dt parameter tensor_value.

Definition _copy_colwise (dt : dtype) (param tensor_value : tdata) (is_bias : bool)
    (rank world_size : nat) : result tdata :=
  let? output_size_per_partition := shape_at param 0 in
  let? tensor :=
    (if negb is_bias
     then slice_rows (rank * output_size_per_partition)
                     ((rank + 1) * output_size_per_partition) tensor_value
     else slice_first (rank * output_size_per_partition)
                      ((rank + 1) * output_size_per_partition) tensor_value) in
  copy_ dt param tensor.

Definition _copy_rowwise (dt : dtype) (param tensor_value : tdata) (is_bias : bool)
    (rank world_size : nat) : result tdata :=
  if negb is_bias then
    let? output_size_per_partition := shape_at param 1 in
    let? tensor := slice_cols (rank * output_size_per_partition)
                              ((rank + 1) * output_size_per_partition) tensor_value in
    copy_ dt param tensor
  else
    if decide (rank = 0) then _copy_if_present dt param tensor_value
    else Ok (zero_ param).

Definition _copy_embedding (dt : dtype) (param tensor_value : tdata)
    (rank world_size : nat) : result tdata :=
  let? output_size_per_partition := shape_at param 1 in
  let? tensor := slice_cols (rank * output_size_per_partition)
                            ((rank + 1) * output_size_per_partition) tensor_value in
  copy_ dt param tensor.

(** ** Checkpoint tensors and the parameter heap *)

(** A tensor of a state dict: its contents and the device holding them. *)
Record tensor := { t_device : device; t_data : tdata }.

(** [t.to(device=d)] *)
Definition to_device (d : device) (t : tensor) : tensor :=
  {| t_device := d; t_data := t_data t |}.

(** Contents of the parameters and buffers of the model, by reference. *)
Abbreviation heap := (nat -> tdata).

(** The dtype of each parameter and buffer of the model, by reference;
    the loader never changes it. *)
Variable dtype_of : nat -> dtype.

(** [o[i]] on an iterable object. A container gives its child; a tensor
    gives one of its elements along the first dimension. *)
Definition getitem (h : heap) (o : Obj) (i : Z) : result Obj :=
  match o with
  | ModuleList items =>
      match py_index items i with
      | Some o' => Ok o'
      | None => Raise IndexError
      end
  | Param r =>
      match h r with
      | T0 _ => Raise IndexError
      | T1 v => if py_index v i is Some _ then Ok Opaque else Raise IndexError
      | T2 _ rows => if py_index rows i is Some _ then Ok Opaque else Raise IndexError
      end
  | _ => Raise TypeError
  end.

(** ** The module-tree walk (the [while] loop of [_load_partial_state_dict])

    [steps] are the key steps from [key_step] on. The loop runs while at
    least two steps remain. The result is the module reached, the last
    [TPModule] met, and whether the loop was left by [break] after an
    AttributeError, in which case the key has been appended to
    [unused_params]. ([prefix] is computed by the source and never read.) *)
Fixpoint walk (h : heap) (target_module : Obj) (tp_module : option tp_names)
    (steps : list string) : result (Obj * option tp_names * bool) :=
  match steps with
  | step :: ((step' :: steps'') as steps') =>
      match getattr target_module step with
      | None => Ok (target_module, tp_module, true)
      | Some o =>
          if is_iterable o then
            let? i := py_int step' in
            let? o' := getitem h o i in
            let tp_module' := if as_tp_module o' is Some tp then Some tp else tp_module in
            walk h o' tp_module' steps''
          else
            let tp_module' := if as_tp_module o is Some tp then Some tp else tp_module in
            walk h o tp_module' steps'
      end
  | _ => Ok (target_module, tp_module, false)
  end.

(** A method of the parameter ([shape], [copy_], [zero_]) is looked up on
    the object found: anything but a tensor has none and raises
    AttributeError; on a tensor the update [f] runs on its dtype and its
    contents. *)
Definition on_param (param : Obj) (f : dtype -> tdata -> result tdata) (h : heap)
    : outcome heap :=
  match param with
  | Param r =>
      match f (dtype_of r) (h r) with
      | Ok t => Done (<[r := t]> h)
      | Raise e => Raised e h
      end
  | _ => Raised AttributeError h
  end.

Definition and_then {S} (m : outcome S) (k : S -> outcome S) : outcome S :=
  match m with
  | Done s => k s
  | Raised e s => Raised e s
  end.

(** The body of the second [try] of [_load_partial_state_dict]. *)
Definition load_param (needs_tp_sharding : bool) (rank world_size : nat)
    (key_steps : list string) (target_module : Obj) (tp_module : option tp_names)
    (tensor_value : tensor) (h : heap) : outcome heap :=
  match getattr target_module (last_step key_steps) with
  | None => Raised AttributeError h
  | Some param =>
      if negb needs_tp_sharding || is_none tp_module then
        on_param param (fun dt p => _copy_if_present dt p (t_data tensor_value)) h
      else
        match tp_module with
        | None => Done h
        | Some tp =>
            match parent_step key_steps with
            | Raise e => Raised e h
            | Ok parent =>
                let is_bias := String.eqb (last_step key_steps) "bias" in
                and_then
                  (if name_in parent (colwise_param_names tp)
                   then on_param param (fun dt p =>
                          _copy_colwise dt p (t_data tensor_value) is_bias rank world_size) h
                   else Done h)
                  (fun h1 =>
                and_then
                  (if name_in parent (rowwise_param_names tp)
                   then on_param param (fun dt p =>
                          _copy_rowwise dt p (t_data tensor_value) is_bias rank world_size) h1
                   else Done h1)
                  (fun h2 =>
                  if name_in parent (embedding_param_names tp)
                  then on_param param (fun dt p =>
                         _copy_embedding dt p (t_data tensor_value) rank world_size) h2
                  else Done h2))
            end
        end
  end.

(** One iteration of the [for] loop of [_load_partial_state_dict], on the
    heap and the local [unused_params]. *)
Definition load_key (model : Obj) (needs_tp_sharding : bool) (rank world_size : nat)
    (key : string) (tensor_value : tensor) (st : heap * list string)
    : outcome (heap * list string) :=
  let '(h, unused_params) := st in
  let key_steps := split_dot key in
  match walk h model None key_steps with
  | Raise e => Raised e (h, unused_params)
  | Ok (target_module, tp_module, broken) =>
      let unused_params := if broken then unused_params ++ [key] else unused_params in
      match load_param needs_tp_sharding rank world_size key_steps
                       target_module tp_module tensor_value h with
      | Done h' => Done (h', unused_params)
      | Raised AttributeError h' => Done (h', unused_params ++ [key])
      | Raised e h' => Raised e (h', unused_params)
      end
  end.

Fixpoint load_items (model : Obj) (needs_tp_sharding : bool) (rank world_size : nat)
    (items : list (string * tensor)) (st : heap * list string)
    : outcome (heap * list string) :=
  match items with
  | [] => Done st
  | (key, tensor_value) :: items' =>
      and_then (load_key model needs_tp_sharding rank world_size key tensor_value st)
               (load_items model needs_tp_sharding rank world_size items')
  end.

(** [_load_partial_state_dict] with its local [unused_params] made
    visible at the end of the call. *)
Definition _load_partial_state_dict_locals (model : Obj) (state_dict : list (string * tensor))
    (needs_tp_sharding : bool) (rank world_size : nat) (h : heap)
    : outcome (heap * list string) :=
  load_items model needs_tp_sharding rank world_size state_dict (h, []).

(** [_load_partial_state_dict]: the function has no [return]; the list
    of unused keys is dropped when it ends, only the model is changed. *)
Definition _load_partial_state_dict (model : Obj) (state_dict : list (string * tensor))
    (needs_tp_sharding : bool) (rank world_size : nat) (h : heap) : outcome heap :=
  match _load_partial_state_dict_locals model state_dict needs_tp_sharding rank world_size h with
  | Done (h', _) => Done h'
  | Raised e (h', _) => Raised e h'
  end.

(** ** The adapter registry *)

(** An adapter maps a raw state dict to a canonical one, or asks for
    more raw keys by raising FusableWeightsMissingError. *)
Definition adapter := list (string * tensor) -> result (list (string * tensor)).

(** The module-level table [__adapters]: architecture, then source. *)
Abbreviation registry := (gmap string (gmap string adapter)).

Definition register_adapter (adapters : registry) (architecture source : string)
    (a : adapter) : result registry :=
  let sources := default ∅ (adapters !! architecture) in
  match sources !! source with
  | Some _ =>
      Raise (KeyError (String.append "Variant " (String.append source
               (String.append " already registered for architecture " architecture))))
  | None => Ok (<[architecture := <[source := a]> sources]> adapters)
  end.

Definition _get_adapter (adapters : registry) (architecture : string)
    (source : option string) : adapter :=
  match source with
  | None => fun x => Ok x
  | Some src =>
      match adapters !! architecture with
      | None => fun x => Ok x
      | Some sources =>
          match sources !! src with
          | None => fun x => Ok x
          | Some a => a
          end
      end
  end.

Definition get_adapted (adapters : registry) (architecture : string)
    (source : option string) (state_dict : list (string * tensor))
    : result (list (string * tensor)) :=
  if bool_decide (length state_dict = 0) then Ok state_dict
  else
    let adapter := _get_adapter adapters architecture source in
    adapter state_dict.

(** ** Lazy stores *)

Record filesystem := {
  expanduser : string -> string;
  is_dir : string -> bool;
  is_file : string -> bool;
  glob : string -> string -> list string;
  suffix : string -> string;
  safetensors_keys : string -> option (list string);
  get_tensor : string -> string -> option tdata;
  torch_load : string -> device -> option (list (string * tensor)) }.

Variable fs : filesystem.

(** A value of a store: a tensor, or the thunk set by
    [set_lazy_tensor], which remembers the file and the device (and the
    key it is stored under). *)
Inductive entry :=
| Resolved (t : tensor)
| Lazy (file : string) (dev : device).

Abbreviation store := (list (string * entry)).

(** [_get_safetensors_item(key, file, device)] *)
Definition _get_safetensors_item (key file : string) (dev : device) : result tensor :=
  match get_tensor fs file key with
  | Some d => Ok {| t_device := dev; t_data := d |}
  | None => Raise SafetensorError
  end.

(** [LazySafetensorsDict.set_lazy_tensor] *)
Definition set_lazy_tensor (key file : string) (dev : device) (sd : store) : store :=
  dict_set key (Lazy file dev) sd.

(** [LazySafetensorsDict.__getitem__]: the value, the store afterwards,
    and the reads performed. A plain dict of tensors behaves the same,
    having no thunk. *)
Definition store_getitem (key : string) (sd : store)
    : result tensor * store * list io_event :=
  match dict_get key sd with
  | None => (Raise (KeyError key), sd, [])
  | Some (Resolved t) => (Ok t, sd, [])
  | Some (Lazy file dev) =>
      match _get_safetensors_item key file dev with
      | Ok t => (Ok t, dict_set key (Resolved t) sd, [GetTensor file key dev])
      | Raise e => (Raise e, sd, [GetTensor file key dev])
      end
  end.

(** [sd.pop(key, None)]: [MutableMapping.pop] reads [sd[key]] first,
    which resolves a thunk, then deletes the key; a missing key is
    passed over. *)
Definition store_pop_default (key : string) (sd : store)
    : result unit * store * list io_event :=
  match store_getitem key sd with
  | (Ok _, sd', ev) => (Ok tt, dict_del key sd', ev)
  | (Raise (KeyError _), sd', ev) => (Ok tt, sd', ev)
  | (Raise e, sd', ev) => (Raise e, sd', ev)
  end.

(** [sd.pop(key)]: a missing key raises KeyError. *)
Definition store_pop (key : string) (sd : store)
    : result unit * store * list io_event :=
  match store_getitem key sd with
  | (Ok _, sd', ev) => (Ok tt, dict_del key sd', ev)
  | (Raise e, sd', ev) => (Raise e, sd', ev)
  end.

(** ** Checkpoint views *)

(** What [load_state_dict] returns and [load_state_dict_into_model]
    consumes: one mapping, or a [ChainMap] over the mappings of several
    files. *)
Inductive view :=
| Dict (d : store)
| ChainMap (maps : list store).

(** [ChainMap.__getitem__]: the first mapping that has the key. *)
Fixpoint chain_getitem (key : string) (maps : list store)
    : result tensor * list store * list io_event :=
  match maps with
  | [] => (Raise (KeyError key), [], [])
  | m :: ms =>
      match store_getitem key m with
      | (Raise (KeyError _), m', ev) =>
          let '(r, ms', ev') := chain_getitem key ms in (r, m' :: ms', ev ++ ev')
      | (r, m', ev) => (r, m' :: ms, ev)
      end
  end.

(** [for child_sd in state_dict.maps: child_sd.pop(p_key, None)] *)
Fixpoint chain_pop (key : string) (maps : list store)
    : result unit * list store * list io_event :=
  match maps with
  | [] => (Ok tt, [], [])
  | m :: ms =>
      match store_pop_default key m with
      | (Ok _, m', ev) =>
          let '(r, ms', ev') := chain_pop key ms in (r, m' :: ms', ev ++ ev')
      | (Raise e, m', ev) => (Raise e, m' :: ms, ev)
      end
  end.

(** [list(state_dict.keys())]: a [ChainMap] lists the keys of its last
    mapping first and each key once. *)
Definition view_keys (v : view) : list string :=
  match v with
  | Dict d => dict_keys d
  | ChainMap maps => first_occurrences [] (concat (map dict_keys (rev maps)))
  end.

Definition view_getitem (key : string) (v : view)
    : result tensor * view * list io_event :=
  match v with
  | Dict d => let '(r, d', ev) := store_getitem key d in (r, Dict d', ev)
  | ChainMap maps => let '(r, maps', ev) := chain_getitem key maps in (r, ChainMap maps', ev)
  end.

(** The removal of one consumed key, by the kind of the view. *)
Definition view_evict (p_key : string) (v : view)
    : result unit * view * list io_event :=
  match v with
  | ChainMap maps => let '(r, maps', ev) := chain_pop p_key maps in (r, ChainMap maps', ev)
  | Dict d => let '(r, d', ev) := store_pop p_key d in (r, Dict d', ev)
  end.

(** ** The weight-loading loop *)

(** What [load_state_dict_into_model] changes: the contents of the
    parameters of the model, the state dict it was given, the reads made
    so far, and its local set [used_keys]. *)
Record lstate := {
  st_model : heap;
  st_sd : view;
  st_io : list io_event;
  st_used : gset string }.

Definition set_model (h : heap) (st : lstate) : lstate :=
  {| st_model := h; st_sd := st_sd st; st_io := st_io st; st_used := st_used st |}.

Definition add_used (key : string) (st : lstate) : lstate :=
  {| st_model := st_model st; st_sd := st_sd st; st_io := st_io st;
     st_used := {[key]} ∪ st_used st |}.

Definition set_sd (v : view) (ev : list io_event) (st : lstate) : lstate :=
  {| st_model := st_model st; st_sd := v; st_io := st_io st ++ ev;
     st_used := st_used st |}.

(** [state_dict[key]], moved to [initial_device] when it is elsewhere. *)
Definition fetch (initial_device : device) (key : string) (st : lstate)
    : result tensor * lstate :=
  let '(r, v, ev) := view_getitem key (st_sd st) in
  (let? t := r in
   Ok (if bool_decide (t_device t ≠ initial_device)
       then to_device initial_device t else t),
   set_sd v ev st).

(** The handler of FusableWeightsMissingError: every missing weight is
    marked used and read into [partial_sd]. *)
Fixpoint gather_missing (initial_device : device) (missing_weights : list string)
    (partial_sd : list (string * tensor)) (st : lstate)
    : result (list (string * tensor)) * lstate :=
  match missing_weights with
  | [] => (Ok partial_sd, st)
  | weight :: rest =>
      match fetch initial_device weight (add_used weight st) with
      | (Ok t, st') => gather_missing initial_device rest (dict_set weight t partial_sd) st'
      | (Raise e, st') => (Raise e, st')
      end
  end.

(** The [try] and its handler: [partial_sd] and [fms_partial_sd]. *)
Definition gather (a : adapter) (initial_device : device) (key : string) (st : lstate)
    : result (list (string * tensor) * list (string * tensor)) * lstate :=
  match fetch initial_device key (add_used key st) with
  | (Raise e, st1) => (Raise e, st1)
  | (Ok t, st1) =>
      let partial_sd := [(key, t)] in
      match a partial_sd with
      | Ok fms_partial_sd => (Ok (partial_sd, fms_partial_sd), st1)
      | Raise (FusableWeightsMissingError missing_weights) =>
          match gather_missing initial_device missing_weights partial_sd st1 with
          | (Raise e, st2) => (Raise e, st2)
          | (Ok partial_sd', st2) =>
              match a partial_sd' with
              | Ok fms_partial_sd => (Ok (partial_sd', fms_partial_sd), st2)
              | Raise e => (Raise e, st2)
              end
          end
      | Raise e => (Raise e, st1)
      end
  end.

(** [for p_key in partial_sd.keys(): ...] *)
Fixpoint evict (p_keys : list string) (st : lstate) : outcome lstate :=
  match p_keys with
  | [] => Done st
  | p_key :: rest =>
      match view_evict p_key (st_sd st) with
      | (Ok _, v, ev) => evict rest (set_sd v ev st)
      | (Raise e, v, ev) => Raised e (set_sd v ev st)
      end
  end.

(** The body of the loop for a key that is not in [used_keys]. *)
Definition load_iteration (model : Obj) (a : adapter) (needs_tp_sharding : bool)
    (initial_device : device) (rank world_size : nat) (key : string) (st : lstate)
    : outcome lstate :=
  match gather a initial_device key st with
  | (Raise e, st1) => Raised e st1
  | (Ok (partial_sd, fms_partial_sd), st1) =>
      match _load_partial_state_dict model fms_partial_sd needs_tp_sharding
                                     rank world_size (st_model st1) with
      | Raised e h => Raised e (set_model h st1)
      | Done h => evict (dict_keys partial_sd) (set_model h st1)
      end
  end.

Fixpoint load_loop (model : Obj) (a : adapter) (needs_tp_sharding : bool)
    (initial_device : device) (rank world_size : nat) (sd_keys : list string)
    (st : lstate) : outcome lstate :=
  match sd_keys with
  | [] => Done st
  | key :: rest =>
      if bool_decide (key ∈ st_used st)
      then load_loop model a needs_tp_sharding initial_device rank world_size rest st
      else and_then
             (load_iteration model a needs_tp_sharding initial_device rank world_size key st)
             (load_loop model a needs_tp_sharding initial_device rank world_size rest)
  end.

(** What a call of this module hands back to its caller. *)
Inductive pyvalue :=
| PyNone
| PyKeys (keys : list string).

(** [load_state_dict_into_model]: the function ends without a [return]
    statement, so a call that completes gives None. *)
Definition load_state_dict_into_model (adapters : registry) (model : Obj) (h : heap)
    (state_dict : view) (architecture : string) (source : option string)
    (distributed_strategy checkpoint_sharding : option string)
    (initial_device : device) (rank world_size : nat)
    : result pyvalue * lstate :=
  let adapter := _get_adapter adapters architecture source in
  let needs_tp_sharding :=
    bool_decide (checkpoint_sharding ≠ Some "tp") &&
    bool_decide (distributed_strategy = Some "tp") in
  let sd_keys := view_keys state_dict in
  match load_loop model adapter needs_tp_sharding initial_device rank world_size sd_keys
          {| st_model := h; st_sd := state_dict; st_io := []; st_used := ∅ |} with
  | Done st => (Ok PyNone, st)
  | Raised e st => (Raise e, st)
  end.

(** ** Finding and opening a checkpoint *)

(** The patterns tried in a directory, in order. *)
Definition glob_pattern_list (glob_pattern : string) (source : option string) : list string :=
  if negb (String.eqb glob_pattern "") then [glob_pattern]
  else if bool_decide (source = Some "meta") then ["*.pth"; "*.safetensors"]
  else if bool_decide (source = Some "hf") then ["*.bin"; "*.safetensors"]
  else ["*.safetensors"; "*.pth"; "*.bin"].

(** The loop over the patterns: the sorted matches of the first pattern
    that has any, with the globs made. *)
Fixpoint first_match (model_path : string) (patterns : list string)
    : list string * list io_event :=
  match patterns with
  | [] => ([], [])
  | glob_pattern_possibility :: rest =>
      let file_list := glob fs model_path glob_pattern_possibility in
      if (0 <? length file_list)%nat
      then (sorted file_list, [Glob model_path glob_pattern_possibility])
      else let '(checkpoints, ev) := first_match model_path rest in
           (checkpoints, Glob model_path glob_pattern_possibility :: ev)
  end.

(** The value of [checkpoints] when the assertion on it is reached. *)
Definition find_checkpoints (model_path glob_pattern : string) (source : option string)
    : list string * list io_event :=
  let '(checkpoints, ev) :=
    if is_dir fs model_path
    then let '(c, ev) := first_match model_path (glob_pattern_list glob_pattern source) in
         (c, IsDir model_path :: ev)
    else ([], [IsDir model_path]) in
  if is_file fs model_path
  then ([model_path], ev ++ [IsFile model_path])
  else (checkpoints, ev ++ [IsFile model_path]).

(** [_load_safetensors_state_dict] *)
Definition _load_safetensors_state_dict (checkpoint : string) (dev : device)
    : result store * list io_event :=
  match safetensors_keys fs checkpoint with
  | Some sd_keys =>
      (Ok (foldl (fun sd key => set_lazy_tensor key checkpoint dev sd) [] sd_keys),
       [SafeOpenKeys checkpoint])
  | None => (Raise SafetensorError, [SafeOpenKeys checkpoint])
  end.

(** [torch.load(str(ckpt_path), map_location=initial_device, mmap=True)] *)
Definition load_eager (ckpt_path : string) (dev : device)
    : result store * list io_event :=
  match torch_load fs ckpt_path dev with
  | Some sd => (Ok (map (fun kv => (kv.1, Resolved kv.2)) sd), [TorchLoad ckpt_path dev])
  | None => (Raise OSError, [TorchLoad ckpt_path dev])
  end.

(** Opening the files one after the other, up to the first failure. *)
Fixpoint load_all (open : string -> device -> result store * list io_event)
    (checkpoints : list string) (dev : device) : result (list store) * list io_event :=
  match checkpoints with
  | [] => (Ok [], [])
  | ckp :: rest =>
      match open ckp dev with
      | (Ok sd, ev) =>
          let '(r, ev') := load_all open rest dev in
          (let? sds := r in Ok (sd :: sds), ev ++ ev')
      | (Raise e, ev) => (Raise e, ev)
      end
  end.

(** [load_state_dict]: the view, or the exception, and the accesses to
    the file system made on the way. *)
Definition load_state_dict (model_path : option path_arg) (source : option string)
    (distributed_strategy checkpoint_sharding : option string)
    (initial_device : device) (rank world_size : nat)
    : result view * list io_event :=
  match model_path with
  | None => (Ok (Dict []), [])
  | Some model_path =>
  if String.eqb (dev_type initial_device) "meta" then (Ok (Dict []), [])
  else if bool_decide (checkpoint_sharding = Some "fsdp") &&
          negb (bool_decide (distributed_strategy ∈ [Some "fsdp"; Some "hsdp"]))
  then (Raise (ValueError "FSDP checkpoints can only be loaded into an FSDP model"), [])
  else if bool_decide (checkpoint_sharding = Some "tp") &&
          bool_decide (distributed_strategy ≠ Some "tp")
  then (Raise (ValueError "TP checkpoints can only be loaded into a TP model"), [])
  else
    let '(model_path, sep, glob_pattern) :=
      match model_path with
      | StrPath s => partition_star s
      | PathObj p => (p, "", "")
      end in
    let glob_pattern := String.append sep glob_pattern in
    let model_path := expanduser fs model_path in
    let '(checkpoints, ev) := find_checkpoints model_path glob_pattern source in
    if negb ((0 <? length checkpoints)%nat) then (Raise AssertionError, ev)
    else
      let sharded :=
        if bool_decide (checkpoint_sharding ≠ None) &&
           bool_decide (checkpoint_sharding ≠ Some "layer")
        then if negb (bool_decide (world_size = length checkpoints))
             then Raise AssertionError
             else match checkpoints !! rank with
                  | Some c => Ok [c]
                  | None => Raise IndexError
                  end
        else Ok checkpoints in
      match sharded with
      | Raise e => (Raise e, ev)
      | Ok checkpoints =>
          let rank_zero :=
            if bool_decide (checkpoint_sharding = None) &&
               bool_decide (distributed_strategy ∈ [Some "hsdp"; Some "fsdp"])
            then if bool_decide (rank = 0)
                 then match checkpoints !! 0 with
                      | Some c => Ok (Some [c])
                      | None => Raise IndexError
                      end
                 else Ok None
            else Ok (Some checkpoints) in
          match rank_zero with
          | Raise e => (Raise e, ev)
          | Ok None => (Ok (Dict []), ev)
          | Ok (Some checkpoints) =>
              match checkpoints !! 0 with
              | None => (Raise IndexError, ev)
              | Some first =>
                  let '(r, ev') :=
                    if String.eqb (suffix fs first) ".safetensors"
                    then load_all _load_safetensors_state_dict checkpoints initial_device
                    else load_all load_eager checkpoints initial_device in
                  (let? checkpoint_sds := r in Ok (ChainMap checkpoint_sds), ev ++ ev')
              end
          end
      end
  end.

(** [key in state_dict]: some mapping of the view has the key. *)
Definition has_key (key : string) (v : view) : Prop :=
  match v with
  | Dict d => key ∈ dict_keys d
  | ChainMap maps => exists m, m ∈ maps /\ key ∈ dict_keys m
  end.

(** A lookup of the key fails: the walk is left by [break] after an
    AttributeError, or the module it ends at has no attribute named by
    the last step. *)
Definition lookup_fails (h : heap) (model : Obj) (key : string) : Prop :=
  match walk h model None (split_dot key) with
  | Ok (target_module, _, broken) =>
      broken = true \/ getattr target_module (last_step (split_dot key)) = None
  | Raise _ => False
  end.

(** Two views of one kind: both a dict, or both a [ChainMap]. *)
Definition same_kind (v v' : view) : Prop :=
  match v, v' with
  | Dict _, Dict _ => True
  | ChainMap _, ChainMap _ => True
  | _, _ => False
  end.

(** The pair (architecture, source) has an adapter in the table. *)
Definition registered (adapters : registry) (architecture source : string) : Prop :=
  exists sources a, adapters !! architecture = Some sources /\ sources !! source = Some a.

(** Reading the same key [n] times in a row: the store at the end and
    all the reads of files made. *)
Fixpoint read_times (n : nat) (key : string) (sd : store) : store * list io_event :=
  match n with
  | 0 => (sd, [])
  | S n' =>
      let '(_, sd', ev) := store_getitem key sd in
      let '(sd'', ev') := read_times n' key sd' in
      (sd'', ev ++ ev')
  end.

(** ** Putting the shards of all ranks together *)

(** Running one computation per rank, in rank order. *)
Fixpoint for_ranks {T} (f : nat -> result T) (ranks : list nat) : result (list T) :=
  match ranks with
  | [] => Ok []
  | r :: ranks' =>
      let? x := f r in
      let? xs := for_ranks f ranks' in
      Ok (x :: xs)
  end.

(** [torch.cat((a, b), dim=0)] *)
Definition cat_first (a b : tdata) : result tdata :=
  match a, b with
  | T1 v, T1 w => Ok (T1 (v ++ w))
  | T2 c rows, T2 c' rows' =>
      if decide (c = c') then Ok (T2 c (rows ++ rows')) else Raise RuntimeError
  | _, _ => Raise RuntimeError
  end.

(** [torch.cat((a, b), dim=-1)] *)
Definition cat_last (a b : tdata) : result tdata :=
  match a, b with
  | T1 v, T1 w => Ok (T1 (v ++ w))
  | T2 c rows, T2 c' rows' =>
      if decide (length rows = length rows')
      then Ok (T2 (c + c') (zip_with app rows rows'))
      else Raise RuntimeError
  | _, _ => Raise RuntimeError
  end.

Fixpoint cat_onto (cat2 : tdata -> tdata -> result tdata) (acc : tdata)
    (ts : list tdata) : result tdata :=
  match ts with
  | [] => Ok acc
  | t :: ts' => let? acc' := cat2 acc t in cat_onto cat2 acc' ts'
  end.

(** [torch.cat(ts, dim)] needs at least one tensor. *)
Definition cat (cat2 : tdata -> tdata -> result tdata) (ts : list tdata) : result tdata :=
  match ts with
  | [] => Raise RuntimeError
  | t :: ts' => cat_onto cat2 t ts'
  end.

(** The sharding kinds that cut the source tensor into one piece per
    rank: column-wise (weight or bias), row-wise weight, embedding. *)
Inductive sharding :=
| Colwise (is_bias : bool)
| Rowwise
| Embedding.

Definition shard_copy (dt : dtype) (k : sharding) (param tensor_value : tdata)
    (rank world_size : nat) : result tdata :=
  match k with
  | Colwise is_bias => _copy_colwise dt param tensor_value is_bias rank world_size
  | Rowwise => _copy_rowwise dt param tensor_value false rank world_size
  | Embedding => _copy_embedding dt param tensor_value rank world_size
  end.

(** [t.to(dtype)]: the tensor with every element converted. *)
Definition to_dtype (dt : dtype) (t : tdata) : tdata :=
  match t with
  | T0 x => T0 (dt x)
  | T1 v => T1 (map dt v)
  | T2 c rows => T2 c (map (map dt) rows)
  end.

(** The conversion to [dt] changes no element of the tensor, as when
    the tensor has that dtype already. *)
Definition exact_in (dt : dtype) (t : tdata) : Prop := to_dtype dt t = t.

(** The dimension along which the shards are put together again. *)
Definition cat_along (k : sharding) : tdata -> tdata -> result tdata :=
  match k with
  | Colwise _ => cat_first
  | _ => cat_last
  end.

(** The size of the dimension of the full tensor that kind [k] cuts, for
    the tensors the copies are written for: a weight matrix, and a bias
    vector under column-wise sharding. *)
Definition cut_dim (k : sharding) (full : tdata) : option nat :=
  match k, full with
  | Colwise false, T2 _ rows => Some (length rows)
  | Colwise true, T1 v => Some (length v)
  | Rowwise, T2 c _ => Some c
  | Embedding, T2 c _ => Some c
  | _, _ => None
  end.

(** The shape of a destination parameter holding [p] of it. *)
Definition shard_shape (k : sharding) (p : nat) (full : tdata) : list nat :=
  match k, full with
  | Colwise _, T2 c _ => [p; c]
  | Colwise _, _ => [p]
  | _, T2 _ rows => [length rows; p]
  | _, _ => [p]
  end.


(** The element-wise sum of two tensors of one shape, for an addition
    [add] of the elements ([a + b] in torch). *)
Definition add_tensors (add : A -> A -> A) (a b : tdata) : result tdata :=
  if decide (shape a = shape b) then
    match a, b with
    | T0 x, T0 y => Ok (T0 (add x y))
    | T1 v, T1 w => Ok (T1 (zip_with add v w))
    | T2 c rows, T2 _ rows' => Ok (T2 c (zip_with (zip_with add) rows rows'))
    | _, _ => Raise RuntimeError
    end
  else Raise RuntimeError.

(** The sum over the ranks, in rank order, of what each of them holds. *)
Definition sum_ranks (add : A -> A -> A) (ts : list tdata) : result tdata :=
  match ts with
  | [] => Raise RuntimeError
  | t :: ts' => cat_onto (add_tensors add) t ts'
  end.

(** * Properties *)

(** ** Slices and partitions *)

Lemma py_slice_length {X} (a b : nat) (l : list X) :
  length (py_slice a b l) = slice_len a b (length l).
Proof. unfold py_slice, slice_len. by rewrite length_take, length_drop. Qed.

Lemma py_slice_next {X} (p r : nat) (l : list X) :
  take (r * p) l ++ py_slice (r * p) ((r + 1) * p) l = take ((r + 1) * p) l.
Proof.
  unfold py_slice.
  replace ((r + 1) * p - r * p) with p by lia.
  rewrite take_take_drop. f_equal. lia.
Qed.

(** The slices of ranks [0 .. n-1] put end to end are the first [n * p]
    elements. *)
Lemma py_slice_concat {X} (p n : nat) (l : list X) :
  concat (map (fun r => py_slice (r * p) ((r + 1) * p) l) (seq 0 n)) = take (n * p) l.
Proof.
  induction n as [|n IH].
  - by rewrite take_0.
  - replace (S n * p) with ((n + 1) * p) by lia.
    rewrite seq_S, map_app, concat_app, IH. cbn [map concat Nat.add].
    rewrite app_nil_r. apply py_slice_next.
Qed.

Lemma slice_len_partition (p r n : nat) :
  r < n -> slice_len (r * p) ((r + 1) * p) (n * p) = p.
Proof. intros Hr. unfold slice_len. nia. Qed.

(** ** Copies between tensors of one shape *)

Lemma expand_same {X} (n : nat) (l : list X) : length l = n -> expand n l = Some l.
Proof. intros H. unfold expand. by rewrite decide_True. Qed.

Lemma expand_rows_same (c : nat) (rows : list (list A)) :
  Forall (fun r => length r = c) rows -> expand_rows c rows = Some rows.
Proof.
  induction 1 as [|r rows Hr _ IH]; [done|].
  simpl. by rewrite expand_same, IH.
Qed.

Lemma copy__same_shape (dt : dtype) (param src : tdata) :
  well_formed src -> shape param = shape src ->
  copy_ dt param src = Ok (to_dtype dt src).
Proof.
  destruct param as [x|v|c rows], src as [y|w|c' rows']; simpl; intros Hwf Hs;
    try discriminate; try done.
  - injection Hs as Hl. by rewrite expand_same.
  - injection Hs as Hl ->. rewrite decide_True by auto.
    by rewrite expand_rows_same, expand_same.
Qed.

Lemma py_slice_map {X Y} (f : X -> Y) (a b : nat) (l : list X) :
  map f (py_slice a b l) = py_slice a b (map f l).
Proof. unfold py_slice. by rewrite skipn_map, firstn_map. Qed.

Lemma to_dtype_shape (dt : dtype) (t : tdata) : shape (to_dtype dt t) = shape t.
Proof. destruct t; simpl; by rewrite ?length_map. Qed.

Lemma to_dtype_well_formed (dt : dtype) (t : tdata) :
  well_formed t -> well_formed (to_dtype dt t).
Proof.
  destruct t as [x|v|c rows]; simpl; try done.
  intros H. apply Forall_map. eapply Forall_impl; [|exact H].
  intros row Hrow. simpl. by rewrite length_map.
Qed.

Lemma for_ranks_map {T} (f : nat -> result T) (g : nat -> T) (ranks : list nat) :
  (forall r, r ∈ ranks -> f r = Ok (g r)) ->
  for_ranks f ranks = Ok (map g ranks).
Proof.
  induction ranks as [|r ranks IH]; intros H; [done|].
  simpl. rewrite (H r) by (apply elem_of_cons; auto). simpl.
  rewrite IH by (intros; apply H; apply elem_of_cons; auto). done.
Qed.

(** ** Concatenating slices *)

Lemma cat_onto_vectors (g : nat -> list A) (ranks : list nat) (acc : list A) :
  cat_onto cat_first (T1 acc) (map (fun r => T1 (g r)) ranks)
  = Ok (T1 (acc ++ concat (map g ranks))).
Proof.
  revert acc. induction ranks as [|r ranks IH]; intros acc; simpl.
  - by rewrite app_nil_r.
  - rewrite IH. by rewrite <- app_assoc.
Qed.

Lemma cat_onto_rows (c : nat) (g : nat -> list (list A)) (ranks : list nat)
    (acc : list (list A)) :
  cat_onto cat_first (T2 c acc) (map (fun r => T2 c (g r)) ranks)
  = Ok (T2 c (acc ++ concat (map g ranks))).
Proof.
  revert acc. induction ranks as [|r ranks IH]; intros acc; simpl.
  - by rewrite app_nil_r.
  - rewrite decide_True by done. simpl. rewrite IH. by rewrite <- app_assoc.
Qed.

Lemma zip_take_slice (p k : nat) (rows : list (list A)) :
  zip_with app (map (take (k * p)) rows)
               (map (py_slice (k * p) ((k + 1) * p)) rows)
  = map (take ((k + 1) * p)) rows.
Proof.
  induction rows as [|row rows IH]; [done|].
  simpl. by rewrite IH, py_slice_next.
Qed.

Lemma cat_onto_columns (p : nat) (rows : list (list A)) (n k : nat) :
  cat_onto cat_last (T2 (k * p) (map (take (k * p)) rows))
    (map (fun r => T2 p (map (py_slice (r * p) ((r + 1) * p)) rows)) (seq k n))
  = Ok (T2 ((k + n) * p) (map (take ((k + n) * p)) rows)).
Proof.
  revert k. induction n as [|n IH]; intros k; simpl.
  - by replace (k + 0) with k by lia.
  - rewrite decide_True by (by rewrite !length_map). simpl.
    rewrite zip_take_slice.
    replace (k * p + p) with ((S k) * p) by lia.
    replace (k + 1) with (S k) by lia.
    rewrite IH. by replace (S k + n) with (k + S n) by lia.
Qed.

Lemma map_take_all (c : nat) (rows : list (list A)) :
  Forall (fun r => length r = c) rows -> map (take c) rows = rows.
Proof.
  induction 1 as [|r rows Hr _ IH]; [done|].
  simpl. rewrite IH. by rewrite take_ge by lia.
Qed.


(** ** What each rank copies *)

Lemma py_slice_Forall {X} (P : X -> Prop) (a b : nat) (l : list X) :
  Forall P l -> Forall P (py_slice a b l).
Proof. intros H. unfold py_slice. by apply Forall_take, Forall_drop. Qed.

Lemma colwise_weight_shard (dt : dtype) (param : tdata) (c p n rank : nat)
    (rows : list (list A)) :
  Forall (fun r => length r = c) rows -> length rows = n * p -> rank < n ->
  shape param = [p; c] ->
  _copy_colwise dt param (T2 c rows) false rank n
  = Ok (T2 c (py_slice (rank * p) ((rank + 1) * p) (map (map dt) rows))).
Proof.
  intros Hwf Hlen Hr Hs. unfold _copy_colwise, shape_at. rewrite Hs. simpl.
  rewrite copy__same_shape.
  - simpl. by rewrite py_slice_map.
  - by apply py_slice_Forall.
  - rewrite Hs. simpl. by rewrite py_slice_length, Hlen, slice_len_partition.
Qed.

Lemma colwise_bias_shard (dt : dtype) (param : tdata) (p n rank : nat) (v : list A) :
  length v = n * p -> rank < n -> shape param = [p] ->
  _copy_colwise dt param (T1 v) true rank n
  = Ok (T1 (py_slice (rank * p) ((rank + 1) * p) (map dt v))).
Proof.
  intros Hlen Hr Hs. unfold _copy_colwise, shape_at. rewrite Hs. simpl.
  rewrite copy__same_shape.
  - simpl. by rewrite py_slice_map.
  - done.
  - rewrite Hs. simpl. by rewrite py_slice_length, Hlen, slice_len_partition.
Qed.

Lemma columns_shard (dt : dtype) (param : tdata) (p n rank : nat) (rows : list (list A)) :
  Forall (fun r => length r = n * p) rows -> rank < n ->
  shape param = [length rows; p] ->
  (let? size := shape_at param 1 in
   let? tensor := slice_cols (rank * size) ((rank + 1) * size) (T2 (n * p) rows) in
   copy_ dt param tensor)
  = Ok (T2 p (map (py_slice (rank * p) ((rank + 1) * p)) (map (map dt) rows))).
Proof.
  intros Hwf Hr Hs. unfold shape_at. rewrite Hs. simpl.
  rewrite slice_len_partition by done.
  rewrite copy__same_shape.
  - simpl. f_equal. f_equal. rewrite !map_map. apply map_ext.
    intros row. apply py_slice_map.
  - simpl. apply Forall_map. eapply Forall_impl; [|exact Hwf].
    intros row Hrow. simpl. by rewrite py_slice_length, Hrow, slice_len_partition.
  - rewrite Hs. simpl. by rewrite length_map.
Qed.

(** C2 (amended). For each sharding kind that cuts the source tensor
    (column-wise weight matrix and bias vector, row-wise weight matrix,
    embedding matrix), every world size of at least one and destination
    parameters of one dtype whose shape is that of one of [world_size]
    equal partitions of the full tensor: the copy succeeds on every
    rank, and the parameters of ranks [0 .. world_size - 1],
    concatenated in rank order (along the first dimension for
    column-wise, along the last for row-wise and embedding), are the
    full source tensor converted to the dtype of the parameters; they
    are the full source tensor itself when that conversion changes none
    of its elements. *)
Theorem shards_reconstruct_full (dt : dtype) (k : sharding) (world_size p : nat)
    (full : tdata) (params : nat -> tdata) :
  1 <= world_size ->
  well_formed full ->
  cut_dim k full = Some (world_size * p) ->
  (forall rank, rank < world_size -> shape (params rank) = shard_shape k p full) ->
  exists shards,
    for_ranks (fun rank => shard_copy dt k (params rank) full rank world_size)
              (seq 0 world_size) = Ok shards
    /\ length shards = world_size
    /\ cat (cat_along k) shards = Ok (to_dtype dt full)
    /\ (exact_in dt full -> cat (cat_along k) shards = Ok full).
Proof.
  intros Hws Hwf Hcut Hshape.
  assert (Hin : forall r, r ∈ seq 0 world_size -> r < world_size).
  { intros r Hr. apply elem_of_seq in Hr. lia. }
  cut (exists shards,
    for_ranks (fun rank => shard_copy dt k (params rank) full rank world_size)
              (seq 0 world_size) = Ok shards
    /\ length shards = world_size
    /\ cat (cat_along k) shards = Ok (to_dtype dt full)).
  { intros (shards & H1 & H2 & H3). exists shards. repeat split; try done.
    intros Hex. by rewrite H3, Hex. }
  pose proof (to_dtype_well_formed dt full Hwf) as Hwf'.
  destruct world_size as [|n]; [lia|].
  destruct k as [[|]| |], full as [x|v|c rows]; simpl in Hcut; try discriminate;
    injection Hcut as Hcut; simpl in Hwf, Hwf'; cbn [to_dtype].
  - (* column-wise bias *)
    assert (Hcut' : length (map dt v) = S n * p) by (by rewrite length_map).
    eexists. split; [|split].
    + apply for_ranks_map with
        (g := fun r => T1 (py_slice (r * p) ((r + 1) * p) (map dt v))).
      intros r Hr. apply (colwise_bias_shard dt _ p (S n)); auto.
    + by rewrite length_map, length_seq.
    + revert Hcut'. generalize (map dt v) as v'. intros v' Hcut'.
      cbn [seq map cat cat_along]. rewrite <- seq_shift, map_map.
      rewrite (cat_onto_vectors (fun r => py_slice (S r * p) ((S r + 1) * p) v')).
      f_equal. f_equal.
      pose proof (py_slice_concat p (S n) v') as Hc. cbn [seq map concat] in Hc.
      rewrite <- seq_shift, map_map in Hc. rewrite Hc.
      apply take_ge. lia.
  - (* column-wise weight *)
    assert (Hcut' : length (map (map dt) rows) = S n * p) by (by rewrite length_map).
    eexists. split; [|split].
    + apply for_ranks_map with
        (g := fun r => T2 c (py_slice (r * p) ((r + 1) * p) (map (map dt) rows))).
      intros r Hr. apply (colwise_weight_shard dt _ c p (S n)); auto.
    + by rewrite length_map, length_seq.
    + revert Hcut'. generalize (map (map dt) rows) as rows'. intros rows' Hcut'.
      cbn [seq map cat cat_along]. rewrite <- seq_shift, map_map.
      rewrite (cat_onto_rows c (fun r => py_slice (S r * p) ((S r + 1) * p) rows')).
      f_equal. f_equal.
      pose proof (py_slice_concat p (S n) rows') as Hc. cbn [seq map concat] in Hc.
      rewrite <- seq_shift, map_map in Hc. rewrite Hc.
      apply take_ge. lia.
  - (* row-wise weight *)
    subst c. eexists. split; [|split].
    + apply for_ranks_map with
        (g := fun r => T2 p (map (py_slice (r * p) ((r + 1) * p)) (map (map dt) rows))).
      intros r Hr. apply (columns_shard dt _ p (S n)); auto.
    + by rewrite length_map, length_seq.
    + revert Hwf'. generalize (map (map dt) rows) as rows'. intros rows' Hwf'.
      cbn [seq map cat cat_along].
      pose proof (cat_onto_columns p rows' n 1) as Hc.
      replace (1 * p) with p in Hc by lia.
      replace (0 * p) with 0 by lia. replace ((0 + 1) * p) with p by lia.
      unfold py_slice at 1. rewrite Nat.sub_0_r.
      rewrite (map_ext (fun l => take p (drop 0 l)) (take p)) by done.
      rewrite Hc. replace ((1 + n) * p) with (S n * p) by lia.
      by rewrite map_take_all.
  - (* embedding *)
    subst c. eexists. split; [|split].
    + apply for_ranks_map with
        (g := fun r => T2 p (map (py_slice (r * p) ((r + 1) * p)) (map (map dt) rows))).
      intros r Hr. apply (columns_shard dt _ p (S n)); auto.
    + by rewrite length_map, length_seq.
    + revert Hwf'. generalize (map (map dt) rows) as rows'. intros rows' Hwf'.
      cbn [seq map cat cat_along].
      pose proof (cat_onto_columns p rows' n 1) as Hc.
      replace (1 * p) with p in Hc by lia.
      replace (0 * p) with 0 by lia. replace ((0 + 1) * p) with p by lia.
      unfold py_slice at 1. rewrite Nat.sub_0_r.
      rewrite (map_ext (fun l => take p (drop 0 l)) (take p)) by done.
      rewrite Hc. replace ((1 + n) * p) with (S n * p) by lia.
      by rewrite map_take_all.
Qed.

(** ** Row-wise bias *)

Lemma rowwise_bias_rank0 (dt : dtype) (param : tdata) (bias : list A) (world_size : nat) :
  shape param = [length bias] ->
  _copy_rowwise dt param (T1 bias) true 0 world_size = Ok (T1 (map dt bias)).
Proof. intros Hs. exact (copy__same_shape dt param (T1 bias) I Hs). Qed.

Lemma rowwise_bias_other (dt : dtype) (param : tdata) (bias : list A)
    (rank world_size : nat) :
  rank <> 0 -> shape param = [length bias] ->
  _copy_rowwise dt param (T1 bias) true rank world_size
  = Ok (T1 (replicate (length bias) zero)).
Proof.
  intros Hr Hs. unfold _copy_rowwise. simpl. rewrite decide_False by done.
  destruct param as [x|v|c rows]; try discriminate.
  injection Hs as Hl. simpl. by rewrite Hl.
Qed.

Lemma zip_add_zero (add : A -> A -> A) (v : list A) :
  (forall x, add x zero = x) ->
  zip_with add v (replicate (length v) zero) = v.
Proof. intros Hadd. induction v as [|x v IH]; [done|]. simpl. by rewrite Hadd, IH. Qed.

Lemma sum_onto_zeros (add : A -> A -> A) (v : list A) (n m : nat) :
  (forall x, add x zero = x) -> m = length v ->
  cat_onto (add_tensors add) (T1 v) (replicate n (T1 (replicate m zero)))
  = Ok (T1 v).
Proof.
  intros Hadd ->. induction n as [|n IH]; [done|].
  simpl. unfold add_tensors at 1. simpl.
  rewrite length_replicate, decide_True by done. simpl.
  by rewrite zip_add_zero.
Qed.

(** C3 (amended). For a row-wise bias, a world size of at least one
    and destination parameters of the shape of the bias: the load
    succeeds on every rank, rank 0 then holds the original bias
    converted to the dtype of its parameter, every other rank holds
    zeros, and the element-wise sum over the ranks is what rank 0
    holds, for any addition of which the written zero is a right unit.
    When the conversion changes no element of the bias, rank 0 holds
    the original bias and the sum is the original bias. *)
Theorem rowwise_bias_sum (dts : nat -> dtype) (add : A -> A -> A) (world_size : nat)
    (bias : list A) (params : nat -> tdata) :
  (forall x, add x zero = x) ->
  1 <= world_size ->
  (forall rank, rank < world_size -> shape (params rank) = [length bias]) ->
  exists loaded,
    for_ranks (fun rank => _copy_rowwise (dts rank) (params rank) (T1 bias) true
                             rank world_size)
              (seq 0 world_size) = Ok loaded
    /\ loaded !! 0 = Some (to_dtype (dts 0) (T1 bias))
    /\ (forall rank, 0 < rank < world_size ->
          loaded !! rank = Some (T1 (replicate (length bias) zero)))
    /\ sum_ranks add loaded = Ok (to_dtype (dts 0) (T1 bias))
    /\ (exact_in (dts 0) (T1 bias) ->
          loaded !! 0 = Some (T1 bias) /\ sum_ranks add loaded = Ok (T1 bias)).
Proof.
  intros Hadd Hws Hshape.
  destruct world_size as [|n]; [lia|].
  exists (T1 (map (dts 0) bias) :: replicate n (T1 (replicate (length bias) zero))).
  assert (Hsum : sum_ranks add
            (T1 (map (dts 0) bias) :: replicate n (T1 (replicate (length bias) zero)))
          = Ok (T1 (map (dts 0) bias))).
  { simpl. apply sum_onto_zeros; [done|]. by rewrite length_map. }
  split; [|split; [done|split; [|split]]].
  - rewrite (for_ranks_map _
      (fun r => if decide (r = 0) then T1 (map (dts 0) bias)
                else T1 (replicate (length bias) zero))).
    + cbn [seq map]. rewrite decide_True by done. f_equal. f_equal.
      rewrite <- seq_shift, map_map. clear. induction n as [|n IH]; [done|].
      rewrite seq_S, map_app, IH. simpl.
      by rewrite replicate_cons_app.
    + intros r Hr. apply elem_of_seq in Hr. destruct (decide (r = 0)) as [->|Hne].
      * apply rowwise_bias_rank0. apply Hshape. lia.
      * apply rowwise_bias_other; [done|]. apply Hshape. lia.
  - intros rank [Hpos Hlt]. destruct rank as [|rank]; [lia|]. simpl.
    apply lookup_replicate_2. lia.
  - exact Hsum.
  - unfold exact_in. cbn [to_dtype] in *. intros Hex. rewrite Hsum.
    injection Hex as Hex. by rewrite Hex.
Qed.

(** ** The module-tree walk and the unused keys *)



(** ** Keys of dicts, stores and views *)

Lemma eqb_string_true (k k' : string) : String.eqb k k' = true <-> k = k'.
Proof. apply String.eqb_eq. Qed.

Lemma dict_get_keys {V} (k : string) (d : list (string * V)) :
  k ∈ dict_keys d <-> is_Some (dict_get k d).
Proof.
  unfold dict_keys, dict_get. induction d as [|[k' v] d IH]; simpl.
  - split; [by intros ?%elem_of_nil | by intros [? ?]].
  - rewrite elem_of_cons, IH. destruct (String.eqb k k') eqn:E.
    + apply String.eqb_eq in E. split; [eauto|auto].
    + apply String.eqb_neq in E. split; [by intros [?|?]|auto].
Qed.

Lemma dict_set_keys {V} (k k' : string) (v : V) (d : list (string * V)) :
  k' ∈ dict_keys (dict_set k v d) <-> k' = k \/ k' ∈ dict_keys d.
Proof.
  unfold dict_keys. induction d as [|[k0 v0] d IH]; simpl.
  - rewrite list_elem_of_singleton, elem_of_nil. tauto.
  - destruct (String.eqb k k0) eqn:E; simpl.
    + apply String.eqb_eq in E. subst k0. rewrite !elem_of_cons. tauto.
    + rewrite !elem_of_cons, IH. tauto.
Qed.

Lemma dict_del_keys {V} (k k' : string) (d : list (string * V)) :
  k' ∈ dict_keys (dict_del k d) <-> k' <> k /\ k' ∈ dict_keys d.
Proof.
  unfold dict_keys. induction d as [|[k0 v0] d IH]; simpl.
  - rewrite elem_of_nil. tauto.
  - destruct (String.eqb k k0) eqn:E; simpl.
    + apply String.eqb_eq in E. subst k0. rewrite elem_of_cons, IH.
      split; [tauto|]. intros [? [?|?]]; tauto.
    + apply String.eqb_neq in E. rewrite !elem_of_cons, IH.
      split; [intros [->|[? ?]]; auto|tauto].
Qed.

(** Reading a key resolves it in place: the keys of the store stay. *)
Lemma store_getitem_keys (key k : string) (sd sd' : store) r ev :
  store_getitem key sd = (r, sd', ev) ->
  (k ∈ dict_keys sd' <-> k ∈ dict_keys sd).
Proof.
  unfold store_getitem. destruct (dict_get key sd) as [[t|file dev]|] eqn:E.
  - by intros [= _ <- _].
  - destruct (_get_safetensors_item key file dev); intros [= _ <- _]; [|done].
    rewrite dict_set_keys. split; [|auto]. intros [->|?]; [|done].
    apply dict_get_keys. by rewrite E.
  - by intros [= _ <- _].
Qed.

Lemma store_getitem_missing (key : string) (sd sd' : store) r ev :
  store_getitem key sd = (r, sd', ev) ->
  (key ∉ dict_keys sd <-> exists k', r = Raise (KeyError k')).
Proof.
  unfold store_getitem. rewrite dict_get_keys.
  destruct (dict_get key sd) as [[t|file dev]|] eqn:E.
  - intros [= <- _ _]. split; [intros []; eauto|by intros [? ?]].
  - unfold _get_safetensors_item. destruct (get_tensor fs file key);
      intros [= <- _ _]; (split; [intros []; eauto|by intros [? ?]]).
  - intros [= <- _ _]. split; [eauto|]. intros _ [? ?]. done.
Qed.

Lemma store_pop_default_keys (key k : string) (sd sd' : store) ev :
  store_pop_default key sd = (Ok tt, sd', ev) ->
  (k ∈ dict_keys sd' <-> k <> key /\ k ∈ dict_keys sd).
Proof.
  unfold store_pop_default.
  destruct (store_getitem key sd) as [[r sd1] ev1] eqn:E.
  pose proof (store_getitem_keys key k _ _ _ _ E) as Hk.
  pose proof (store_getitem_missing key _ _ _ _ E) as Hm.
  destruct r as [t|e].
  - intros [= <- _]. rewrite dict_del_keys, Hk. done.
  - destruct e; try discriminate. intros [= <- _]. rewrite Hk.
    split; [|tauto]. intros Hin. split; [|done]. intros ->.
    destruct Hm as [_ Hm]. eapply Hm; eauto.
Qed.

Lemma store_pop_keys (key k : string) (sd sd' : store) ev :
  store_pop key sd = (Ok tt, sd', ev) ->
  (k ∈ dict_keys sd' <-> k <> key /\ k ∈ dict_keys sd).
Proof.
  unfold store_pop.
  destruct (store_getitem key sd) as [[r sd1] ev1] eqn:E.
  pose proof (store_getitem_keys key k _ _ _ _ E) as Hk.
  destruct r as [t|e]; [|discriminate].
  intros [= <- _]. by rewrite dict_del_keys, Hk.
Qed.

Lemma has_key_nil (k : string) : has_key k (ChainMap []) <-> False.
Proof. simpl. split; [|done]. intros (m & Hm & _). by apply elem_of_nil in Hm. Qed.

Lemma has_key_cons (k : string) (m : store) (ms : list store) :
  has_key k (ChainMap (m :: ms)) <-> k ∈ dict_keys m \/ has_key k (ChainMap ms).
Proof.
  simpl. split.
  - intros (m' & [->|Hm]%elem_of_cons & Hk); eauto.
  - intros [Hk|(m' & Hm & Hk)]; [exists m|exists m']; rewrite elem_of_cons; auto.
Qed.

Lemma chain_getitem_keys (key k : string) (maps maps' : list store) r ev :
  chain_getitem key maps = (r, maps', ev) ->
  (has_key k (ChainMap maps') <-> has_key k (ChainMap maps)).
Proof.
  revert maps' r ev. induction maps as [|m ms IH]; intros maps' r ev; simpl chain_getitem.
  - by intros [= _ <- _].
  - destruct (store_getitem key m) as [[r1 m1] ev1] eqn:E.
    pose proof (store_getitem_keys key k _ _ _ _ E) as Hk.
    destruct (chain_getitem key ms) as [[r2 ms2] ev2] eqn:E2.
    specialize (IH _ _ _ eq_refl).
    destruct r1 as [t|e]; [|destruct e]; intros [= _ <- _];
      rewrite !has_key_cons, ?IH, Hk; done.
Qed.

Lemma chain_pop_keys (key k : string) (maps maps' : list store) ev :
  chain_pop key maps = (Ok tt, maps', ev) ->
  (has_key k (ChainMap maps') <-> k <> key /\ has_key k (ChainMap maps)).
Proof.
  revert maps' ev. induction maps as [|m ms IH]; intros maps' ev; simpl chain_pop.
  - intros [= <- _]. rewrite has_key_nil. tauto.
  - destruct (store_pop_default key m) as [[r1 m1] ev1] eqn:E.
    destruct r1 as [[]|e]; [|discriminate].
    pose proof (store_pop_default_keys key k _ _ _ E) as Hk.
    destruct (chain_pop key ms) as [[r2 ms2] ev2] eqn:E2.
    intros [= -> <- _]. specialize (IH _ _ eq_refl).
    rewrite !has_key_cons, IH, Hk. tauto.
Qed.

Lemma view_getitem_keys (key k : string) (v v' : view) r ev :
  view_getitem key v = (r, v', ev) -> (has_key k v' <-> has_key k v).
Proof.
  destruct v as [d|maps]; simpl view_getitem.
  - destruct (store_getitem key d) as [[r1 d1] ev1] eqn:E. intros [= _ <- _].
    simpl. eapply store_getitem_keys; eauto.
  - destruct (chain_getitem key maps) as [[r1 m1] ev1] eqn:E. intros [= _ <- _].
    eapply chain_getitem_keys; eauto.
Qed.

Lemma view_evict_keys (p_key k : string) (v v' : view) ev :
  view_evict p_key v = (Ok tt, v', ev) ->
  (has_key k v' <-> k <> p_key /\ has_key k v).
Proof.
  destruct v as [d|maps]; simpl view_evict.
  - destruct (store_pop p_key d) as [[r1 d1] ev1] eqn:E. intros [= -> <- _].
    simpl. eapply store_pop_keys; eauto.
  - destruct (chain_pop p_key maps) as [[r1 m1] ev1] eqn:E. intros [= -> <- _].
    eapply chain_pop_keys; eauto.
Qed.

Lemma view_getitem_kind (key : string) (v v' : view) r ev :
  view_getitem key v = (r, v', ev) -> same_kind v v'.
Proof.
  destruct v as [d|maps]; simpl.
  - destruct (store_getitem key d) as [[? ?] ?]. by intros [= _ <- _].
  - destruct (chain_getitem key maps) as [[? ?] ?]. by intros [= _ <- _].
Qed.

Lemma view_evict_kind (key : string) (v v' : view) r ev :
  view_evict key v = (r, v', ev) -> same_kind v v'.
Proof.
  destruct v as [d|maps]; simpl.
  - destruct (store_pop key d) as [[? ?] ?]. by intros [= _ <- _].
  - destruct (chain_pop key maps) as [[? ?] ?]. by intros [= _ <- _].
Qed.

Lemma same_kind_trans (v1 v2 v3 : view) :
  same_kind v1 v2 -> same_kind v2 v3 -> same_kind v1 v3.
Proof. by destruct v1, v2, v3. Qed.

Lemma same_kind_refl (v : view) : same_kind v v.
Proof. by destruct v. Qed.

Lemma first_occurrences_elem (k : string) (l seen : list string) :
  k ∈ first_occurrences seen l <-> k ∈ l /\ k ∉ seen.
Proof.
  revert seen. induction l as [|x l IH]; intros seen; simpl.
  - rewrite elem_of_nil. tauto.
  - case_bool_decide as Hx.
    + rewrite IH, elem_of_cons. split; [tauto|].
      intros [[->|?] ?]; tauto.
    + rewrite !elem_of_cons, IH, elem_of_cons.
      destruct (decide (k = x)) as [->|]; tauto.
Qed.

Lemma view_keys_has_key (k : string) (v : view) : k ∈ view_keys v <-> has_key k v.
Proof.
  destruct v as [d|maps]; simpl; [done|].
  rewrite first_occurrences_elem, elem_of_nil, list_elem_of_In, in_concat.
  split.
  - intros [(ks & Hks & Hk) _]. apply in_map_iff in Hks as (m & <- & Hm).
    exists m. split; [|by apply list_elem_of_In].
    by apply list_elem_of_In, in_rev.
  - intros (m & Hm & Hk). split; [|tauto].
    exists (dict_keys m). split; [|by apply list_elem_of_In].
    apply in_map. by apply in_rev; rewrite rev_involutive; apply list_elem_of_In.
Qed.

Lemma view_keys_empty (v : view) : (forall k, ~ has_key k v) -> view_keys v = [].
Proof.
  intros H. apply elem_of_nil_inv. intros k Hk. by apply (H k), view_keys_has_key.
Qed.

(** ** The state of the loop *)

Lemma fetch_spec (dev : device) (key : string) (st st' : lstate) r :
  fetch dev key st = (r, st') ->
  (forall k, has_key k (st_sd st') <-> has_key k (st_sd st))
  /\ same_kind (st_sd st) (st_sd st')
  /\ st_used st' = st_used st /\ st_model st' = st_model st.
Proof.
  unfold fetch. destruct (view_getitem key (st_sd st)) as [[r1 v1] ev1] eqn:E.
  intros [= _ <-]. simpl. split; [|split; [|done]].
  - intros k. eapply view_getitem_keys; eauto.
  - eapply view_getitem_kind; eauto.
Qed.

Lemma gather_missing_spec (dev : device) (missing : list string)
    (partial_sd : list (string * tensor)) (st st' : lstate) r :
  gather_missing dev missing partial_sd st = (r, st') ->
  (forall k, has_key k (st_sd st') <-> has_key k (st_sd st))
  /\ same_kind (st_sd st) (st_sd st')
  /\ st_model st' = st_model st
  /\ (forall partial_sd', r = Ok partial_sd' ->
        (forall k, k ∈ dict_keys partial_sd' <-> k ∈ dict_keys partial_sd \/ k ∈ missing)
        /\ (forall k, k ∈ st_used st' <-> k ∈ st_used st \/ k ∈ missing)).
Proof.
  revert partial_sd st. induction missing as [|weight rest IH]; intros partial_sd st; simpl.
  - intros [= <- <-]. split; [done|]. split; [apply same_kind_refl|]. split; [done|].
    intros p' [= <-]. split; intros k; rewrite elem_of_nil; tauto.
  - destruct (fetch dev weight (add_used weight st)) as [[t|e] st1] eqn:E;
      apply fetch_spec in E as (Hk & Hkind & Hu & Hm); simpl in *.
    + intros H. apply IH in H as (Hk' & Hkind' & Hm' & Hok).
      split; [intros k; by rewrite Hk', Hk|].
      split; [eapply same_kind_trans; eauto|].
      split; [congruence|].
      intros partial_sd' Hr. destruct (Hok _ Hr) as [Hp Hused]. split; intros k.
      * rewrite Hp, dict_set_keys, elem_of_cons. tauto.
      * rewrite Hused, Hu, elem_of_cons. set_solver.
    + intros [= <- <-]. split; [done|]. split; [done|]. split; [done|].
      intros p' [=].
Qed.

Lemma gather_spec (a : adapter) (dev : device) (key : string) (st st' : lstate)
    (partial_sd fms_partial_sd : list (string * tensor)) :
  gather a dev key st = (Ok (partial_sd, fms_partial_sd), st') ->
  (forall k, has_key k (st_sd st') <-> has_key k (st_sd st))
  /\ same_kind (st_sd st) (st_sd st')
  /\ st_model st' = st_model st
  /\ key ∈ dict_keys partial_sd
  /\ (forall k, k ∈ st_used st' <-> k ∈ st_used st \/ k ∈ dict_keys partial_sd).
Proof.
  unfold gather.
  destruct (fetch dev key (add_used key st)) as [[t|e] st1] eqn:E; [|discriminate].
  apply fetch_spec in E as (Hk & Hkind & Hu & Hm); simpl in *.
  destruct (a [(key, t)]) as [fms|e] eqn:Ea.
  - intros [= <- <- <-]. repeat split; try done; try apply Hk.
    + unfold dict_keys. simpl. by apply list_elem_of_singleton.
    + rewrite Hu. unfold dict_keys. simpl. set_solver.
    + rewrite Hu. unfold dict_keys. simpl. set_solver.
  - destruct e; try discriminate.
    destruct (gather_missing dev missing_weights [(key, t)] st1) as [[p'|e] st2] eqn:Eg;
      [|discriminate].
    apply gather_missing_spec in Eg as (Hk' & Hkind' & Hm' & Hok).
    destruct (Hok _ eq_refl) as [Hp Hused].
    destruct (a p') as [fms|e] eqn:Ea'; [|discriminate].
    intros [= <- <- <-].
    split; [intros k; by rewrite Hk', Hk|].
    split; [eapply same_kind_trans; eauto|].
    split; [congruence|].
    split.
    + apply Hp. left. unfold dict_keys. simpl. by apply list_elem_of_singleton.
    + intros k. rewrite Hused, Hu, Hp. unfold dict_keys. simpl. set_solver.
Qed.

Lemma and_then_Done {S} (m : outcome S) (k : S -> outcome S) (s' : S) :
  and_then m k = Done s' -> exists s, m = Done s /\ k s = Done s'.
Proof. destruct m as [s|e s]; simpl; [eauto|discriminate]. Qed.

Lemma evict_spec (p_keys : list string) (st st' : lstate) :
  evict p_keys st = Done st' ->
  (forall k, has_key k (st_sd st') <-> (k ∉ p_keys) /\ has_key k (st_sd st))
  /\ same_kind (st_sd st) (st_sd st')
  /\ st_used st' = st_used st /\ st_model st' = st_model st.
Proof.
  revert st. induction p_keys as [|p_key rest IH]; intros st; simpl.
  - intros [= <-]. split; [|split; [apply same_kind_refl|done]].
    intros k. rewrite elem_of_nil. tauto.
  - destruct (view_evict p_key (st_sd st)) as [[[[]|e] v] ev] eqn:E; [|discriminate].
    intros H. apply IH in H as (Hk & Hkind & Hu & Hm). simpl in *.
    split; [|split; [|done]].
    + intros k. rewrite Hk, (view_evict_keys _ k _ _ _ E), elem_of_cons. tauto.
    + eapply same_kind_trans; [|exact Hkind]. eapply view_evict_kind; eauto.
Qed.

(** One completed iteration removes from the view exactly the keys of
    its [partial_sd], among them the key of the iteration, and marks
    them used. *)
Lemma load_iteration_spec (model : Obj) (a : adapter) (needs_tp_sharding : bool)
    (dev : device) (rank world_size : nat) (key : string) (st st' : lstate) :
  load_iteration model a needs_tp_sharding dev rank world_size key st = Done st' ->
  exists partial_sd fms_partial_sd st1,
    gather a dev key st = (Ok (partial_sd, fms_partial_sd), st1)
    /\ key ∈ dict_keys partial_sd
    /\ (forall k, has_key k (st_sd st') <->
                  (k ∉ dict_keys partial_sd) /\ has_key k (st_sd st))
    /\ (forall k, k ∈ st_used st' <-> k ∈ st_used st \/ k ∈ dict_keys partial_sd)
    /\ same_kind (st_sd st) (st_sd st').
Proof.
  unfold load_iteration.
  destruct (gather a dev key st) as [[[partial_sd fms]|e] st1] eqn:Eg; [|discriminate].
  destruct (_load_partial_state_dict _ _ _ _ _ _) as [h|e h]; [|discriminate].
  intros He. exists partial_sd, fms, st1. split; [done|].
  apply gather_spec in Eg as (Hk & Hkind & Hm & Hkey & Hused).
  apply evict_spec in He as (Hk' & Hkind' & Hu' & Hm'). simpl in *.
  split; [done|]. split; [|split].
  - intros k. by rewrite Hk', Hk.
  - intros k. by rewrite Hu', Hused.
  - eapply same_kind_trans; eauto.
Qed.

(** When the loop completes, no key is left in the view. *)
Lemma load_loop_consumes (model : Obj) (a : adapter) (needs_tp_sharding : bool)
    (dev : device) (rank world_size : nat) (sd_keys : list string) (st st' : lstate) :
  load_loop model a needs_tp_sharding dev rank world_size sd_keys st = Done st' ->
  (forall k, has_key k (st_sd st) -> k ∈ sd_keys /\ k ∉ st_used st) ->
  forall k, ~ has_key k (st_sd st').
Proof.
  revert st. induction sd_keys as [|key rest IH]; intros st; simpl.
  - intros [= <-] Hinv k Hk. destruct (Hinv k Hk) as [Hin _]. by apply elem_of_nil in Hin.
  - case_bool_decide as Hused.
    + intros Hl Hinv. apply (IH _ Hl). intros k Hk.
      destruct (Hinv k Hk) as [[->|Hin]%elem_of_cons Hnot]; done.
    + intros (st1 & Hit & Hl)%and_then_Done Hinv. apply (IH _ Hl).
      apply load_iteration_spec in Hit
        as (partial_sd & fms & st0 & _ & Hkey & Hk1 & Hu1 & _).
      intros k Hk. apply Hk1 in Hk as [Hnp Hk].
      destruct (Hinv k Hk) as [[->|Hin]%elem_of_cons Hnot]; [done|].
      split; [done|]. rewrite Hu1. tauto.
Qed.

(** ** Eviction from a merged view *)

Lemma chain_getitem_absent (key : string) (maps : list store) :
  (forall m, m ∈ maps -> dict_get key m = None) ->
  chain_getitem key maps = (Raise (KeyError key), maps, []).
Proof.
  induction maps as [|m ms IH]; intros H; [done|].
  simpl. unfold store_getitem. rewrite (H m) by (apply elem_of_cons; auto).
  rewrite IH by (intros m' Hm'; apply H, elem_of_cons; auto). done.
Qed.


(** ** Unused keys *)

Lemma load_key_grows (model : Obj) (needs_tp_sharding : bool) (rank world_size : nat)
    (key : string) (tensor_value : tensor) (h h' : heap) (u u' : list string) :
  load_key model needs_tp_sharding rank world_size key tensor_value (h, u) = Done (h', u') ->
  exists more, u' = u ++ more.
Proof.
  unfold load_key. destruct (walk h model None (split_dot key)) as [[[t tp] b]|e];
    [|discriminate].
  destruct (load_param _ _ _ _ _ _ _ _) as [h1|e h1].
  - intros [= _ <-]. destruct b; [by exists [key]|exists []; by rewrite app_nil_r].
  - destruct e; try discriminate. intros [= _ <-].
    destruct b; [exists [key; key]; by rewrite <- app_assoc|by exists [key]].
Qed.

Lemma load_items_grows (model : Obj) (needs_tp_sharding : bool) (rank world_size : nat)
    (items : list (string * tensor)) (h h' : heap) (u u' : list string) :
  load_items model needs_tp_sharding rank world_size items (h, u) = Done (h', u') ->
  exists more, u' = u ++ more.
Proof.
  revert h u. induction items as [|[key t] items IH]; intros h u; simpl.
  - intros [= _ <-]. exists []. by rewrite app_nil_r.
  - intros ([h1 u1] & Hk & Hl)%and_then_Done.
    apply load_key_grows in Hk as [m1 ->]. apply IH in Hl as [m2 ->].
    exists (m1 ++ m2). by rewrite app_assoc.
Qed.

(** A key whose lookup fails is in [unused_params] once its iteration
    is over. *)
Lemma load_key_records (model : Obj) (needs_tp_sharding : bool) (rank world_size : nat)
    (key : string) (tensor_value : tensor) (h h' : heap) (u u' : list string) :
  lookup_fails h model key ->
  load_key model needs_tp_sharding rank world_size key tensor_value (h, u) = Done (h', u') ->
  key ∈ u'.
Proof.
  unfold lookup_fails, load_key.
  destruct (walk h model None (split_dot key)) as [[[t tp] b]|e]; [|done].
  intros [->|Hnone].
  - destruct (load_param _ _ _ _ _ _ _ _) as [h1|e h1].
    + intros [= _ <-]. set_solver.
    + destruct e; try discriminate. intros [= _ <-]. set_solver.
  - unfold load_param. rewrite Hnone. intros [= _ <-]. set_solver.
Qed.

(** C1 (amended). When [load_state_dict_into_model] completes it
    returns None, not a list of diagnostics, and the view it consumed
    has no key left, whether the keys matched a parameter or not. A key
    whose lookup fails is in the local [unused_params] of
    [_load_partial_state_dict] when the iteration for that key ends, and
    stays in it until the function ends, where the list is dropped. *)
Theorem load_consumes_view_returns_none (adapters : registry) (model : Obj) (h : heap)
    (state_dict : view) (architecture : string) (source : option string)
    (distributed_strategy checkpoint_sharding : option string)
    (initial_device : device) (rank world_size : nat) (v : pyvalue) (st' : lstate) :
  load_state_dict_into_model adapters model h state_dict architecture source
    distributed_strategy checkpoint_sharding initial_device rank world_size = (Ok v, st') ->
  v = PyNone
  /\ view_keys (st_sd st') = []
  /\ (forall needs_tp_sharding key tensor_value rest h0 u0 h1 u1 h2 u2,
        lookup_fails h0 model key ->
        load_key model needs_tp_sharding rank world_size key tensor_value (h0, u0)
          = Done (h1, u1) ->
        load_items model needs_tp_sharding rank world_size rest (h1, u1) = Done (h2, u2) ->
        key ∈ u1 /\ key ∈ u2).
Proof.
  unfold load_state_dict_into_model.
  destruct (load_loop _ _ _ _ _ _ _ _) as [st|e st] eqn:El; [|discriminate].
  intros [= <- <-]. split; [done|]. split.
  - apply view_keys_empty. eapply load_loop_consumes; [exact El|].
    simpl. intros k Hk. split; [by apply view_keys_has_key|set_solver].
  - intros needs key t rest h0 u0 h1 u1 h2 u2 Hf Hk Hl.
    pose proof (load_key_records _ _ _ _ _ _ _ _ _ _ Hf Hk) as Hin.
    split; [done|]. apply load_items_grows in Hl as [more ->]. set_solver.
Qed.

(** ** The adapter registry *)

(** C7. Whatever the architecture and the state dict, [get_adapted]
    with no source, or with a source that is not registered for the
    architecture, returns the state dict it was given. *)
Theorem get_adapted_identity (adapters : registry) (architecture : string)
    (state_dict : list (string * tensor)) :
  get_adapted adapters architecture None state_dict = Ok state_dict
  /\ forall source, ~ registered adapters architecture source ->
       get_adapted adapters architecture (Some source) state_dict = Ok state_dict.
Proof.
  unfold get_adapted. split.
  - by case_bool_decide.
  - intros source Hnot. case_bool_decide; [done|]. simpl.
    destruct (adapters !! architecture) as [sources|] eqn:Ea; [|done].
    destruct (sources !! source) as [a|] eqn:Es; [|done].
    exfalso. apply Hnot. by exists sources, a.
Qed.

(** ** The lazy store *)

Lemma dict_get_set {V} (k : string) (v : V) (d : list (string * V)) :
  dict_get k (dict_set k v d) = Some v.
Proof.
  unfold dict_get. induction d as [|[k' v'] d IH]; simpl.
  - by rewrite String.eqb_refl.
  - destruct (String.eqb k k') eqn:E; simpl; [by rewrite String.eqb_refl|by rewrite E].
Qed.

Lemma dict_set_present_keys {V} (k : string) (v : V) (d : list (string * V)) :
  is_Some (dict_get k d) -> dict_keys (dict_set k v d) = dict_keys d.
Proof.
  unfold dict_keys, dict_get. induction d as [|[k' v'] d IH]; simpl.
  - by intros [? ?].
  - destruct (String.eqb k k') eqn:E; simpl.
    + apply String.eqb_eq in E. by subst.
    + intros H. f_equal. by apply IH.
Qed.

Lemma read_times_resolved (n : nat) (key : string) (sd : store) (t : tensor) :
  dict_get key sd = Some (Resolved t) -> read_times n key sd = (sd, []).
Proof.
  intros H. induction n as [|n IH]; [done|].
  simpl. unfold store_getitem. by rewrite H, IH.
Qed.

(** C8. For a key that holds a thunk whose resolution succeeds: the
    first read resolves it with one read of the file and puts the tensor
    in the place of the thunk; a second read returns the same tensor
    from the store with no read of the file and leaves the store as it
    is; and any number of reads in a row, one at least, makes exactly
    that one read of the file. *)
Theorem lazy_tensor_resolved_once (key file : string) (dev : device) (sd : store)
    (t : tensor) :
  dict_get key sd = Some (Lazy file dev) ->
  _get_safetensors_item key file dev = Ok t ->
  exists sd1,
    store_getitem key sd = (Ok t, sd1, [GetTensor file key dev])
    /\ dict_get key sd1 = Some (Resolved t)
    /\ dict_keys sd1 = dict_keys sd
    /\ store_getitem key sd1 = (Ok t, sd1, [])
    /\ forall n, 1 <= n -> read_times n key sd = (sd1, [GetTensor file key dev]).
Proof.
  intros Hget Hres. exists (dict_set key (Resolved t) sd).
  assert (Hfirst : store_getitem key sd
                   = (Ok t, dict_set key (Resolved t) sd, [GetTensor file key dev])).
  { unfold store_getitem. by rewrite Hget, Hres. }
  assert (Hcached := dict_get_set key (Resolved t) sd).
  split; [done|]. split; [done|]. split; [|split].
  - apply dict_set_present_keys. by rewrite Hget.
  - unfold store_getitem. by rewrite Hcached.
  - intros [|n] Hn; [lia|]. simpl. rewrite Hfirst.
    by rewrite (read_times_resolved n key _ t Hcached).
Qed.

(** ** Finding the checkpoint files *)

(** The order of paths, as a relation. *)
Definition path_le (p q : string) : Prop := path_leb p q = true.

Lemma parts_compare_antisym (l1 l2 : list string) :
  parts_compare l2 l1 = CompOpp (parts_compare l1 l2).
Proof.
  revert l2. induction l1 as [|a l1 IH]; intros [|b l2]; simpl; try done.
  rewrite (String.compare_antisym a b).
  destruct (String.compare b a); simpl; [apply IH|done|done].
Qed.

Lemma path_leb_total (p q : string) : path_leb p q = true \/ path_leb q p = true.
Proof.
  unfold path_leb. rewrite (parts_compare_antisym (path_parts p) (path_parts q)).
  destruct (parts_compare (path_parts p) (path_parts q)); simpl; auto.
Qed.

Lemma insert_sorted_perm (p : string) (l : list string) :
  Permutation (insert_sorted p l) (p :: l).
Proof.
  induction l as [|q l IH]; simpl; [done|].
  destruct (path_leb p q); [done|].
  rewrite IH. apply perm_swap.
Qed.

Lemma insert_sorted_hd (p q : string) (l : list string) :
  path_le q p -> HdRel path_le q l -> HdRel path_le q (insert_sorted p l).
Proof.
  intros Hqp Hl. destruct l as [|x l]; simpl.
  - by constructor.
  - destruct (path_leb p x); constructor; [done|]. by inversion Hl.
Qed.

Lemma insert_sorted_sorted (p : string) (l : list string) :
  Sorted path_le l -> Sorted path_le (insert_sorted p l).
Proof.
  induction 1 as [|q l Hs IH Hhd]; simpl.
  - by repeat constructor.
  - destruct (path_leb p q) eqn:E.
    + constructor; [by constructor|]. by constructor.
    + constructor; [done|]. apply insert_sorted_hd; [|done].
      destruct (path_leb_total p q) as [H|H]; [congruence|done].
Qed.

Lemma sorted_perm (l : list string) : Permutation (sorted l) l.
Proof.
  induction l as [|p l IH]; simpl; [done|].
  by rewrite insert_sorted_perm, IH.
Qed.

Lemma sorted_sorted (l : list string) : Sorted path_le (sorted l).
Proof.
  induction l as [|p l IH]; simpl; [constructor|]. by apply insert_sorted_sorted.
Qed.

(** The patterns before the first one with a match are passed over. *)
Lemma first_match_first (model_path : string) (before after : list string)
    (pattern : string) :
  (forall q, q ∈ before -> glob fs model_path q = []) ->
  glob fs model_path pattern <> [] ->
  first_match model_path (before ++ pattern :: after)
  = (sorted (glob fs model_path pattern),
     map (Glob model_path) (before ++ [pattern])).
Proof.
  intros Hbefore Hpat. induction before as [|q before IH]; simpl.
  - destruct (glob fs model_path pattern) as [|f l] eqn:E; [done|]. done.
  - rewrite (Hbefore q) by (apply elem_of_cons; auto). simpl.
    rewrite IH; [done|]. intros q' Hq'. apply Hbefore, elem_of_cons. auto.
Qed.

(** The checks on the sharding let the pair through. *)
Definition compatible (checkpoint_sharding distributed_strategy : option string) : Prop :=
  (checkpoint_sharding = Some "fsdp" ->
   distributed_strategy = Some "fsdp" \/ distributed_strategy = Some "hsdp")
  /\ (checkpoint_sharding = Some "tp" -> distributed_strategy = Some "tp").

(** The directory or file and the glob pattern that [load_state_dict]
    takes from its [model_path]. *)
Definition path_and_pattern (model_path : path_arg) : string * string :=
  match model_path with
  | StrPath s => let '(before, sep, after) := partition_star s in
                 (before, String.append sep after)
  | PathObj p => (p, "")
  end.

(** The reader for the selected files, by the suffix of the first. *)
Definition reader_for (first : string) : string -> device -> result store * list io_event :=
  if String.eqb (suffix fs first) ".safetensors"
  then _load_safetensors_state_dict else load_eager.

(** [load_state_dict] from the point where [checkpoints] has been
    found; [load_state_dict_found] below shows it is that part. *)
Definition open_selected (checkpoints : list string) (ev : list io_event)
    (distributed_strategy checkpoint_sharding : option string)
    (initial_device : device) (rank world_size : nat) : result view * list io_event :=
  if negb (0 <? length checkpoints)%nat then (Raise AssertionError, ev)
  else
    let sharded :=
      if bool_decide (checkpoint_sharding ≠ None) &&
         bool_decide (checkpoint_sharding ≠ Some "layer")
      then if negb (bool_decide (world_size = length checkpoints))
           then Raise AssertionError
           else match checkpoints !! rank with
                | Some c => Ok [c]
                | None => Raise IndexError
                end
      else Ok checkpoints in
    match sharded with
    | Raise e => (Raise e, ev)
    | Ok checkpoints =>
        let rank_zero :=
          if bool_decide (checkpoint_sharding = None) &&
             bool_decide (distributed_strategy ∈ [Some "hsdp"; Some "fsdp"])
          then if bool_decide (rank = 0)
               then match checkpoints !! 0 with
                    | Some c => Ok (Some [c])
                    | None => Raise IndexError
                    end
               else Ok None
          else Ok (Some checkpoints) in
        match rank_zero with
        | Raise e => (Raise e, ev)
        | Ok None => (Ok (Dict []), ev)
        | Ok (Some checkpoints) =>
            match checkpoints !! 0 with
            | None => (Raise IndexError, ev)
            | Some first =>
                let '(r, ev') :=
                  if String.eqb (suffix fs first) ".safetensors"
                  then load_all _load_safetensors_state_dict checkpoints initial_device
                  else load_all load_eager checkpoints initial_device in
                (let? checkpoint_sds := r in Ok (ChainMap checkpoint_sds), ev ++ ev')
            end
        end
    end.

Lemma load_state_dict_found (model_path : path_arg) (source : option string)
    (distributed_strategy checkpoint_sharding : option string)
    (initial_device : device) (rank world_size : nat) :
  dev_type initial_device <> "meta" ->
  compatible checkpoint_sharding distributed_strategy ->
  load_state_dict (Some model_path) source distributed_strategy checkpoint_sharding
                  initial_device rank world_size
  = let '(path, glob_pattern) := path_and_pattern model_path in
    let '(checkpoints, ev) := find_checkpoints (expanduser fs path) glob_pattern source in
    open_selected checkpoints ev distributed_strategy checkpoint_sharding
                  initial_device rank world_size.
Proof.
  intros Hdev [Hfsdp Htp]. apply String.eqb_neq in Hdev.
  unfold load_state_dict. rewrite Hdev.
  assert (H1 : bool_decide (checkpoint_sharding = Some "fsdp") &&
               negb (bool_decide (distributed_strategy ∈ [Some "fsdp"; Some "hsdp"]))
               = false).
  { destruct (decide (checkpoint_sharding = Some "fsdp")) as [Hs|Hs].
    - rewrite (bool_decide_eq_true_2 (distributed_strategy ∈ _));
        [apply andb_false_r|].
      rewrite !elem_of_cons. destruct (Hfsdp Hs); auto.
    - by rewrite (bool_decide_eq_false_2 _ Hs). }
  assert (H2 : bool_decide (checkpoint_sharding = Some "tp") &&
               bool_decide (distributed_strategy ≠ Some "tp") = false).
  { destruct (decide (checkpoint_sharding = Some "tp")) as [Hs|Hs].
    - rewrite (bool_decide_eq_false_2 (distributed_strategy ≠ Some "tp"));
        [apply andb_false_r|]. intros Hne. by apply Hne, Htp.
    - by rewrite (bool_decide_eq_false_2 _ Hs). }
  rewrite H1, H2. unfold path_and_pattern, open_selected.
  destruct model_path as [s|p].
  - destruct (partition_star s) as [[before sep] after].
    by destruct (find_checkpoints _ _ _) as [checkpoints ev].
  - by destruct (find_checkpoints _ _ _) as [checkpoints ev].
Qed.

Lemma open_selected_reader (first : string) (checkpoints : list string) (dev : device) :
  (if String.eqb (suffix fs first) ".safetensors"
   then load_all _load_safetensors_state_dict checkpoints dev
   else load_all load_eager checkpoints dev)
  = load_all (reader_for first) checkpoints dev.
Proof. unfold reader_for. by destruct (String.eqb _ _). Qed.

(** The result of [load_state_dict] when it opens all of [files], after
    the accesses [ev] to the file system: the reader is chosen by the
    suffix of the first file. *)
Definition opens_all (files : list string) (ev : list io_event) (dev : device)
    : result view * list io_event :=
  match files with
  | [] => (Raise AssertionError, ev)
  | first :: _ =>
      let '(r, ev') := load_all (reader_for first) files dev in
      (let? checkpoint_sds := r in Ok (ChainMap checkpoint_sds), ev ++ ev')
  end.

(** C9 (amended). For a device that is not the meta device, a path that
    has no glob and names a directory that is no file, no source, and a
    checkpoint that is unsharded outside the "fsdp" and "hsdp"
    strategies, or sharded by layer: [load_state_dict] tries the
    patterns [*.safetensors], [*.pth], [*.bin] in this order, up to the
    first that has a match, and opens exactly the matches of that
    pattern, in the sorted order of paths, asking nothing else of the
    file system. So when [*.safetensors] has a match, only that pattern
    is tried and exactly its matches are opened, whatever matches
    [*.bin]. The sorted files are in increasing order of paths and are
    the matches themselves, each as often as the glob gave it. *)
Theorem directory_prefers_safetensors (model_path : path_arg) (p : string)
    (distributed_strategy checkpoint_sharding : option string)
    (initial_device : device) (rank world_size : nat) :
  let dir := expanduser fs p in
  path_and_pattern model_path = (p, "") ->
  dev_type initial_device <> "meta" ->
  (checkpoint_sharding = Some "layer"
   \/ (checkpoint_sharding = None /\ distributed_strategy <> Some "fsdp"
       /\ distributed_strategy <> Some "hsdp")) ->
  is_dir fs dir = true ->
  is_file fs dir = false ->
  (glob fs dir "*.safetensors" <> [] ->
     load_state_dict (Some model_path) None distributed_strategy checkpoint_sharding
                     initial_device rank world_size
     = opens_all (sorted (glob fs dir "*.safetensors"))
                 [IsDir dir; Glob dir "*.safetensors"; IsFile dir] initial_device)
  /\ (forall before pattern after,
        before ++ pattern :: after = ["*.safetensors"; "*.pth"; "*.bin"] ->
        (forall q, q ∈ before -> glob fs dir q = []) ->
        glob fs dir pattern <> [] ->
        load_state_dict (Some model_path) None distributed_strategy checkpoint_sharding
                        initial_device rank world_size
        = opens_all (sorted (glob fs dir pattern))
                    (IsDir dir :: map (Glob dir) (before ++ [pattern]) ++ [IsFile dir])
                    initial_device)
  /\ (forall pattern,
        Sorted path_le (sorted (glob fs dir pattern))
        /\ Permutation (sorted (glob fs dir pattern)) (glob fs dir pattern)).
Proof.
  intros dir Hpath Hdev Hcase Hdir Hfile.
  assert (Hgen : forall before pattern after,
        before ++ pattern :: after = ["*.safetensors"; "*.pth"; "*.bin"] ->
        (forall q, q ∈ before -> glob fs dir q = []) ->
        glob fs dir pattern <> [] ->
        load_state_dict (Some model_path) None distributed_strategy checkpoint_sharding
                        initial_device rank world_size
        = opens_all (sorted (glob fs dir pattern))
                    (IsDir dir :: map (Glob dir) (before ++ [pattern]) ++ [IsFile dir])
                    initial_device).
  { intros before pattern after Hpats Hbefore Hpat.
    rewrite load_state_dict_found;
      [|done|split; intros Hs; destruct Hcase as [Hl|[Hn _]]; congruence].
    rewrite Hpath. fold dir. unfold find_checkpoints. rewrite Hdir, Hfile.
    change (glob_pattern_list "" None) with ["*.safetensors"; "*.pth"; "*.bin"].
    rewrite <- Hpats, (first_match_first dir before after pattern Hbefore Hpat).
    cbn [app].
    assert (Hfiles : sorted (glob fs dir pattern) <> []).
    { intros Hnil. apply Hpat. apply Permutation_nil.
      rewrite <- (sorted_perm (glob fs dir pattern)). by rewrite Hnil. }
    destruct (sorted (glob fs dir pattern)) as [|first rest]; [done|].
    unfold open_selected, opens_all. cbn [length Nat.ltb Nat.leb negb].
    destruct Hcase as [->|(-> & Hf & Hh)].
    - rewrite (bool_decide_eq_false_2 (Some "layer" ≠ Some "layer"))
        by (intros H; by apply H).
      rewrite andb_false_r. rewrite (bool_decide_eq_false_2 (Some "layer" = None)) by done.
      cbn [andb lookup list_lookup]. by rewrite open_selected_reader.
    - rewrite (bool_decide_eq_false_2 (None ≠ None)) by (intros H; by apply H).
      cbn [andb]. rewrite (bool_decide_eq_false_2 (distributed_strategy ∈ _))
        by (rewrite !elem_of_cons, elem_of_nil; intros [?|[?|[]]]; done).
      rewrite andb_false_r. cbn [lookup list_lookup]. by rewrite open_selected_reader. }
  split; [|split; [exact Hgen|]].
  - intros Hst.
    apply (Hgen [] "*.safetensors" ["*.pth"; "*.bin"]);
      [done|by intros q Hq%elem_of_nil|done].
  - intros pattern. split; [apply sorted_sorted|apply sorted_perm].
Qed.

(** ** Validation of the sharding *)

(** C4 (amended). For a path that is given and a device whose type is
    not "meta": an "fsdp" checkpoint with the "tp" strategy, and a "tp"
    checkpoint with any strategy other than "tp", are refused with the
    ValueError of the case before the file system is touched. *)
Theorem incompatible_sharding_rejected (model_path : path_arg) (source : option string)
    (initial_device : device) (rank world_size : nat) :
  dev_type initial_device <> "meta" ->
  load_state_dict (Some model_path) source (Some "tp") (Some "fsdp")
                  initial_device rank world_size
  = (Raise (ValueError "FSDP checkpoints can only be loaded into an FSDP model"), [])
  /\ forall distributed_strategy, distributed_strategy <> Some "tp" ->
       load_state_dict (Some model_path) source distributed_strategy (Some "tp")
                       initial_device rank world_size
       = (Raise (ValueError "TP checkpoints can only be loaded into a TP model"), []).
Proof.
  intros Hdev. apply String.eqb_neq in Hdev. unfold load_state_dict. rewrite Hdev.
  split; [done|].
  intros strategy Hs. simpl.
  rewrite (bool_decide_eq_true_2 (strategy ≠ Some "tp")) by done. done.
Qed.

(** A walk that completes and ends at a module without the attribute:
    the key is recorded once, nothing is copied, the loop goes on. *)
Lemma load_key_missing_attribute (model target : Obj) (tp_module : option tp_names)
    (needs_tp_sharding : bool) (rank world_size : nat) (key : string)
    (tensor_value : tensor) (h : heap) (u : list string) :
  walk h model None (split_dot key) = Ok (target, tp_module, false) ->
  getattr target (last_step (split_dot key)) = None ->
  load_key model needs_tp_sharding rank world_size key tensor_value (h, u)
  = Done (h, u ++ [key]).
Proof. intros Hw Hnone. unfold load_key, load_param. by rewrite Hw, Hnone. Qed.

Lemma py_int_error (s : string) (e : exn) : py_int s = Raise e -> e <> AttributeError.
Proof.
  unfold py_int.
  match goal with |- match ?parsed with _ => _ end = _ -> _ => destruct parsed end;
    [done|]. by intros [= <-].
Qed.

Lemma getitem_error (h : heap) (o : Obj) (i : Z) (e : exn) :
  getitem h o i = Raise e -> e <> AttributeError.
Proof.
  destruct o as [r|tp attrs|items|]; simpl.
  - destruct (h r) as [x|v|c rows]; [by intros [= <-]| |];
      destruct (py_index _ i); try done; by intros [= <-].
  - by intros [= <-].
  - destruct (py_index items i); [done|]. by intros [= <-].
  - by intros [= <-].
Qed.

Lemma walk_two_steps (h : heap) (m : Obj) (tp : option tp_names)
    (s1 s2 : string) (rest : list string) :
  walk h m tp (s1 :: s2 :: rest)
  = match getattr m s1 with
    | None => Ok (m, tp, true)
    | Some o =>
        if is_iterable o then
          let? i := py_int s2 in
          let? o' := getitem h o i in
          walk h o' (if as_tp_module o' is Some tp' then Some tp' else tp) rest
        else
          walk h o (if as_tp_module o is Some tp' then Some tp' else tp) (s2 :: rest)
    end.
Proof. reflexivity. Qed.

Lemma walk_error (h : heap) (steps : list string) :
  forall m tp e, walk h m tp steps = Raise e -> e <> AttributeError.
Proof.
  remember (length steps) as n eqn:Hn. revert steps Hn.
  induction n as [n IH] using lt_wf_ind. intros steps Hn m tp e.
  destruct steps as [|s1 [|s2 rest]]; [done|done|].
  rewrite walk_two_steps.
  destruct (getattr m s1) as [o|]; [|done].
  destruct (is_iterable o).
  - destruct (py_int s2) as [z|e1] eqn:Ez; simpl.
    + destruct (getitem h o z) as [o'|e2] eqn:Eg; simpl.
      * eapply IH; [|reflexivity]. subst n. simpl. lia.
      * intros [= <-]. eapply getitem_error; eauto.
    + intros [= <-]. eapply py_int_error; eauto.
  - eapply IH; [|reflexivity]. subst n. simpl. lia.
Qed.

(** An AttributeError never leaves the processing of a key. *)
Lemma load_key_catches_attribute_errors (model : Obj) (needs_tp_sharding : bool)
    (rank world_size : nat) (key : string) (tensor_value : tensor)
    (st st' : heap * list string) :
  load_key model needs_tp_sharding rank world_size key tensor_value st
  <> Raised AttributeError st'.
Proof.
  destruct st as [h u]. unfold load_key.
  destruct (walk h model None (split_dot key)) as [[[t tp] b]|e] eqn:Ew.
  - destruct (load_param _ _ _ _ _ _ _ _) as [h1|e h1]; [done|]. by destruct e.
  - intros [= -> _]. by eapply walk_error.
Qed.

(** * Further properties *)

(** ** The registry *)

(** X1. A pair that has been registered cannot be registered again: the
    second call raises KeyError, for any adapter, with the message
    "Variant [source] already registered for architecture
    [architecture]". A registration that succeeds was of a pair without
    an adapter, and gives it one. *)
Theorem register_adapter_twice (adapters adapters' : registry) (architecture source : string)
    (a a' : adapter) :
  register_adapter adapters architecture source a = Ok adapters' ->
  register_adapter adapters' architecture source a'
  = Raise (KeyError (String.append "Variant " (String.append source
             (String.append " already registered for architecture " architecture))))
  /\ ~ registered adapters architecture source
  /\ registered adapters' architecture source.
Proof.
  unfold register_adapter, registered.
  destruct (adapters !! architecture) as [sources|] eqn:Ea; simpl.
  - destruct (sources !! source) as [a0|] eqn:Es; [discriminate|].
    intros [= <-]. rewrite lookup_insert_eq. simpl. rewrite lookup_insert_eq.
    split; [done|]. split.
    + intros (s & a1 & Hs & Ha). congruence.
    + exists (<[source:=a]> sources), a. by rewrite !lookup_insert_eq.
  - rewrite lookup_empty. intros [= <-]. rewrite lookup_insert_eq. simpl.
    rewrite lookup_insert_eq. split; [done|]. split.
    + intros (s & a1 & Hs & Ha). congruence.
    + exists (<[source:=a]> ∅), a. by rewrite !lookup_insert_eq.
Qed.

(** X2. After a registration the adapter resolved for the pair is the
    adapter registered, and every other pair resolves as before. *)
Theorem register_adapter_lookup (adapters adapters' : registry)
    (architecture source : string) (a : adapter) :
  register_adapter adapters architecture source a = Ok adapters' ->
  _get_adapter adapters' architecture (Some source) = a
  /\ forall architecture' source',
       (architecture', source') <> (architecture, source) ->
       _get_adapter adapters' architecture' (Some source')
       = _get_adapter adapters architecture' (Some source').
Proof.
  unfold register_adapter.
  destruct (default ∅ (adapters !! architecture) !! source) as [a0|] eqn:Es;
    [discriminate|].
  intros [= <-]. unfold _get_adapter. split.
  - by rewrite !lookup_insert_eq.
  - intros arch' src' Hne. destruct (decide (arch' = architecture)) as [->|Harch].
    + rewrite lookup_insert_eq.
      assert (Hsrc : source <> src') by congruence.
      rewrite lookup_insert_ne by done.
      destruct (adapters !! architecture) as [sources|]; simpl; [done|].
      by rewrite lookup_empty.
    + by rewrite lookup_insert_ne.
Qed.

(** X3. [get_adapted] with a registered source hands a state dict that
    is not empty to the registered adapter and returns what the adapter
    returns or raises; an empty state dict is returned as it is and the
    adapter is not called. *)
Theorem get_adapted_registered (adapters : registry) (architecture source : string)
    (sources : gmap string adapter) (a : adapter) (state_dict : list (string * tensor)) :
  adapters !! architecture = Some sources ->
  sources !! source = Some a ->
  get_adapted adapters architecture (Some source) [] = Ok []
  /\ (state_dict <> [] ->
      get_adapted adapters architecture (Some source) state_dict = a state_dict).
Proof.
  intros Ha Hs. unfold get_adapted, _get_adapter. rewrite Ha, Hs. split; [done|].
  intros Hne. rewrite bool_decide_eq_false_2; [done|].
  by destruct state_dict.
Qed.

(** ** Copies are in place *)

Lemma expand_length {X} (n : nat) (l l' : list X) :
  expand n l = Some l' -> length l' = n.
Proof.
  unfold expand. case_decide as Hl; [by intros [= <-]|].
  destruct l as [|x [|y l]]; try discriminate.
  intros [= <-]. apply length_replicate.
Qed.

Lemma expand_rows_spec (c : nat) (rows rows' : list (list A)) :
  expand_rows c rows = Some rows' ->
  length rows' = length rows /\ Forall (fun r => length r = c) rows'.
Proof.
  revert rows'. induction rows as [|r rows IH]; intros rows'; simpl.
  - intros [= <-]. by split.
  - destruct (expand c r) as [r'|] eqn:Er; [|discriminate].
    destruct (expand_rows c rows) as [rs|]; [|discriminate].
    intros [= <-]. destruct (IH _ eq_refl) as [Hl Hf]. simpl. split; [by rewrite Hl|].
    constructor; [by eapply expand_length|done].
Qed.

Lemma expand_Forall {X} (P : X -> Prop) (n : nat) (l l' : list X) :
  Forall P l -> expand n l = Some l' -> Forall P l'.
Proof.
  intros Hl. unfold expand. case_decide; [by intros [= <-]|].
  destruct l as [|x [|y l]]; try discriminate.
  intros [= <-]. apply Forall_replicate. by inversion Hl.
Qed.

Lemma copy__shape (dt : dtype) (param src t : tdata) :
  copy_ dt param src = Ok t -> shape t = shape param /\ well_formed t.
Proof.
  destruct param as [x|v|c rows], src as [y|w|c' rows']; simpl; try discriminate.
  - by intros [= <-].
  - intros [= <-]. simpl. by rewrite length_replicate.
  - destruct (expand (length v) w) as [w'|] eqn:E; [|discriminate].
    intros [= <-]. simpl. by rewrite length_map, (expand_length _ _ _ E).
  - intros [= <-]. simpl. rewrite length_replicate. split; [done|].
    apply Forall_replicate, length_replicate.
  - destruct (expand c w) as [w'|] eqn:E; [|discriminate].
    intros [= <-]. simpl. rewrite length_replicate. split; [done|].
    apply Forall_replicate. rewrite length_map. by eapply expand_length.
  - case_decide; [|discriminate].
    destruct (expand_rows c rows') as [rs|] eqn:E; [|discriminate].
    destruct (expand (length rows) rs) as [rs'|] eqn:E'; [|discriminate].
    intros [= <-]. simpl. rewrite length_map, (expand_length _ _ _ E'). split; [done|].
    apply Forall_map. apply expand_rows_spec in E as [_ Hrs].
    eapply Forall_impl; [|exact (expand_Forall _ _ _ _ Hrs E')].
    intros row Hrow. simpl. by rewrite length_map.
Qed.

Lemma zero__shape (param : tdata) :
  shape (zero_ param) = shape param /\ well_formed (zero_ param).
Proof.
  destruct param as [x|v|c rows]; simpl; rewrite ?length_replicate; split; try done.
  apply Forall_replicate, length_replicate.
Qed.

Lemma _copy_colwise_shape (dt : dtype) (param tensor_value t : tdata) (is_bias : bool)
    (rank world_size : nat) :
  _copy_colwise dt param tensor_value is_bias rank world_size = Ok t ->
  shape t = shape param /\ well_formed t.
Proof.
  unfold _copy_colwise. intros H.
  destruct (shape_at param 0); [|discriminate]. simpl in H.
  destruct (if negb is_bias then _ else _); [|discriminate].
  by apply copy__shape in H.
Qed.

Lemma _copy_rowwise_shape (dt : dtype) (param tensor_value t : tdata) (is_bias : bool)
    (rank world_size : nat) :
  _copy_rowwise dt param tensor_value is_bias rank world_size = Ok t ->
  shape t = shape param /\ well_formed t.
Proof.
  unfold _copy_rowwise, _copy_if_present. intros H. destruct (negb is_bias).
  - destruct (shape_at param 1); [|discriminate]. simpl in H.
    destruct (slice_cols _ _ _); [|discriminate]. by apply copy__shape in H.
  - case_decide; [by apply copy__shape in H|].
    injection H as <-. apply zero__shape.
Qed.

Lemma _copy_embedding_shape (dt : dtype) (param tensor_value t : tdata)
    (rank world_size : nat) :
  _copy_embedding dt param tensor_value rank world_size = Ok t ->
  shape t = shape param /\ well_formed t.
Proof.
  unfold _copy_embedding. intros H.
  destruct (shape_at param 1); [|discriminate]. simpl in H.
  destruct (slice_cols _ _ _); [|discriminate]. by apply copy__shape in H.
Qed.

(** X4. Whatever a sharding copy is given, and whatever the dtype of
    the parameter, when it succeeds the destination parameter has the
    shape it had before and is a rectangular tensor: the copies write in
    place and never resize. *)
Theorem copies_keep_shape (dt : dtype) (param tensor_value t : tdata) (is_bias : bool)
    (rank world_size : nat) :
  (_copy_if_present dt param tensor_value = Ok t
   \/ _copy_colwise dt param tensor_value is_bias rank world_size = Ok t
   \/ _copy_rowwise dt param tensor_value is_bias rank world_size = Ok t
   \/ _copy_embedding dt param tensor_value rank world_size = Ok t) ->
  shape t = shape param /\ well_formed t.
Proof.
  intros [H|[H|[H|H]]].
  - by apply copy__shape in H.
  - by apply _copy_colwise_shape in H.
  - by apply _copy_rowwise_shape in H.
  - by apply _copy_embedding_shape in H.
Qed.

(** X5. A rank outside the partition gets no rows: with a weight of
    [n * p] rows, parameters of [p >= 1] rows and a rank of at least
    [n], the column-wise copy raises RuntimeError and the parameter is
    not written. *)
Theorem colwise_rank_out_of_range (dt : dtype) (param : tdata) (c p n rank : nat)
    (rows : list (list A)) :
  length rows = n * p -> n <= rank -> 1 <= p ->
  shape param = [p; c] ->
  _copy_colwise dt param (T2 c rows) false rank n = Raise RuntimeError.
Proof.
  intros Hlen Hrank Hp Hs. unfold _copy_colwise, shape_at. rewrite Hs. simpl.
  assert (Hnil : py_slice (rank * p) ((rank + 1) * p) rows = []).
  { unfold py_slice. rewrite drop_ge by nia. apply take_nil. }
  rewrite Hnil. destruct param as [x|v|c' rows0]; try discriminate.
  injection Hs as Hl ->. simpl. rewrite decide_True by auto. unfold expand. simpl.
  rewrite decide_False by lia. done.
Qed.

(** ** What a partial load does to the model *)



Definition same_except (refs : list nat) (h h' : heap) : Prop :=
  forall r, r ∉ refs -> h' r = h r.












Lemma load_items_catches_attribute_errors (model : Obj) (needs_tp_sharding : bool)
    (rank world_size : nat) (items : list (string * tensor))
    (st st' : heap * list string) :
  load_items model needs_tp_sharding rank world_size items st <> Raised AttributeError st'.
Proof.
  revert st. induction items as [|[key t] items IH]; intros st; [done|].
  simpl. destruct (load_key _ _ _ _ _ _ _) as [st1|e st1] eqn:Ek; simpl.
  - apply IH.
  - intros [= -> ->]. by eapply load_key_catches_attribute_errors.
Qed.

(** X7. No AttributeError leaves [_load_partial_state_dict], whatever
    the model, the state dict and the sharding: a step that is not an
    attribute, a missing parameter and an object that is not a tensor
    are all caught and end the key, not the call. *)
Theorem partial_load_catches_attribute_errors (model : Obj)
    (state_dict : list (string * tensor)) (needs_tp_sharding : bool)
    (rank world_size : nat) (h h' : heap) :
  _load_partial_state_dict model state_dict needs_tp_sharding rank world_size h
  <> Raised AttributeError h'.
Proof.
  unfold _load_partial_state_dict, _load_partial_state_dict_locals.
  destruct (load_items _ _ _ _ _ _) as [[h1 u1]|e [h1 u1]] eqn:E; [done|].
  intros [= -> _]. by eapply load_items_catches_attribute_errors.
Qed.



(** ** Steps of a key *)

(** [".".join(steps)] *)
Fixpoint join_dot (steps : list string) : string :=
  match steps with
  | [] => EmptyString
  | [s] => s
  | s :: steps' => String.append s (String "."%char (join_dot steps'))
  end.

Fixpoint has_char (c : ascii) (s : string) : bool :=
  match s with
  | EmptyString => false
  | String c' s' => Ascii.eqb c c' || has_char c s'
  end.

Lemma join_dot_first_char (c : ascii) (w : string) (ws : list string) :
  join_dot (String c w :: ws) = String c (join_dot (w :: ws)).
Proof. by destruct ws. Qed.

(** X10. The steps of a key put together again with dots are the key;
    there is at least one step, and no step has a dot in it. *)
Theorem split_dot_join (key : string) :
  join_dot (split_dot key) = key
  /\ split_dot key <> []
  /\ Forall (fun s => has_char "."%char s = false) (split_dot key).
Proof.
  induction key as [|c key (IHj & IHn & IHf)].
  - split; [done|]. split; [done|]. by repeat constructor.
  - cbn [split_dot]. destruct (Ascii.eqb c ".") eqn:Ec.
    + apply Ascii.eqb_eq in Ec. subst c.
      destruct (split_dot key) as [|w ws] eqn:Es; [done|].
      split; [|split; [done|by constructor]].
      change (join_dot (EmptyString :: w :: ws))
        with (String "."%char (join_dot (w :: ws))).
      by rewrite IHj.
    + destruct (split_dot key) as [|w ws] eqn:Es; [done|].
      split; [|split; [done|]].
      * by rewrite join_dot_first_char, IHj.
      * inversion IHf; subst. constructor; [|done]. cbn [has_char].
        rewrite Ascii.eqb_sym, Ec. done.
Qed.

(** ** Stores *)

Lemma dict_get_set_ne {V} (k k' : string) (v : V) (d : list (string * V)) :
  k' <> k -> dict_get k' (dict_set k v d) = dict_get k' d.
Proof.
  intros Hne. unfold dict_get. induction d as [|[k0 v0] d IH]; simpl.
  - by rewrite (proj2 (String.eqb_neq k' k)).
  - destruct (String.eqb k k0) eqn:E; simpl.
    + apply String.eqb_eq in E. subst k0.
      by rewrite (proj2 (String.eqb_neq k' k)).
    + destruct (String.eqb k' k0); [done|apply IH].
Qed.

Lemma dict_set_fresh_keys {V} (k : string) (v : V) (d : list (string * V)) :
  k ∉ dict_keys d -> dict_keys (dict_set k v d) = dict_keys d ++ [k].
Proof.
  unfold dict_keys. induction d as [|[k0 v0] d IH]; simpl; [done|].
  intros Hnot. apply not_elem_of_cons in Hnot as [Hne Hnot].
  rewrite (proj2 (String.eqb_neq k k0)) by done. simpl. f_equal. by apply IH.
Qed.

Lemma dict_del_set {V} (k : string) (v : V) (d : list (string * V)) :
  is_Some (dict_get k d) -> dict_del k (dict_set k v d) = dict_del k d.
Proof.
  unfold dict_get. induction d as [|[k0 v0] d IH]; simpl.
  - by intros [? ?].
  - destruct (String.eqb k k0) eqn:E; simpl.
    + by rewrite String.eqb_refl.
    + intros H. rewrite E. f_equal. by apply IH.
Qed.

(** X11. A read of a store changes at most the entry read: the keys
    stay in their order and every other key keeps its entry; and when
    the read raises, because the key is missing or the file cannot give
    the tensor, the store is left exactly as it was. *)
Theorem store_getitem_frame (key : string) (sd sd' : store) (r : result tensor)
    (ev : list io_event) :
  store_getitem key sd = (r, sd', ev) ->
  dict_keys sd' = dict_keys sd
  /\ (forall k, k <> key -> dict_get k sd' = dict_get k sd)
  /\ (forall e, r = Raise e -> sd' = sd)
  /\ (dict_get key sd = None -> r = Raise (KeyError key) /\ ev = []).
Proof.
  unfold store_getitem. destruct (dict_get key sd) as [[t|file dev]|] eqn:E.
  - intros [= <- <- <-]. by repeat split.
  - destruct (_get_safetensors_item key file dev) as [t|e];
      intros [= <- <- <-]; [|by repeat split].
    split; [apply dict_set_present_keys; by rewrite E|].
    split; [intros k Hk; by apply dict_get_set_ne|]. by split.
  - intros [= <- <- <-]. by repeat split.
Qed.

(** X12. Evicting a key that is still a thunk reads the file first:
    [pop] goes through the read of the store, so the tensor is loaded,
    one read is made, and only then the key is removed. When that read
    fails the eviction raises and the key stays. *)
Theorem store_pop_resolves_thunk (key file : string) (dev : device) (sd : store) :
  dict_get key sd = Some (Lazy file dev) ->
  store_pop_default key sd
  = match _get_safetensors_item key file dev with
    | Ok _ => (Ok tt, dict_del key sd, [GetTensor file key dev])
    | Raise e => (Raise SafetensorError, sd, [GetTensor file key dev])
    end.
Proof.
  intros Hget. unfold store_pop_default, store_getitem. rewrite Hget.
  unfold _get_safetensors_item. destruct (get_tensor fs file key) as [d|]; [|done].
  rewrite dict_del_set by (by rewrite Hget). done.
Qed.

Lemma set_lazy_tensors_get (file : string) (dev : device) (sd_keys : list string)
    (sd : store) (k : string) :
  dict_get k (foldl (fun sd key => set_lazy_tensor key file dev sd) sd sd_keys)
  = if bool_decide (k ∈ sd_keys) then Some (Lazy file dev) else dict_get k sd.
Proof.
  revert sd. induction sd_keys as [|key rest IH]; intros sd; simpl; [done|].
  rewrite IH. unfold set_lazy_tensor.
  destruct (decide (k = key)) as [->|Hne].
  - rewrite dict_get_set. rewrite (bool_decide_eq_true_2 (key ∈ key :: rest)) by left.
    by case_bool_decide.
  - rewrite dict_get_set_ne by done.
    case_bool_decide as H1; case_bool_decide as H2; try done.
    + exfalso. apply H2. by right.
    + exfalso. by apply elem_of_cons in H2 as [?|?].
Qed.

Lemma set_lazy_tensors_keys (file : string) (dev : device) (sd_keys : list string)
    (sd : store) :
  NoDup sd_keys -> (forall k, k ∈ sd_keys -> k ∉ dict_keys sd) ->
  dict_keys (foldl (fun sd key => set_lazy_tensor key file dev sd) sd sd_keys)
  = dict_keys sd ++ sd_keys.
Proof.
  revert sd. induction sd_keys as [|key rest IH]; intros sd Hnd Hfresh; simpl.
  - by rewrite app_nil_r.
  - inversion Hnd as [|? ? Hnot Hnd']; subst. rewrite IH; [|done|].
    + unfold set_lazy_tensor. rewrite dict_set_fresh_keys by (apply Hfresh; left).
      by rewrite <- app_assoc.
    + intros k Hk. unfold set_lazy_tensor. rewrite dict_set_keys.
      intros [->|Hin]; [done|]. apply (Hfresh k); [by right|done].
Qed.

(** X13. Opening a safetensors file lists its keys and reads no tensor:
    the store has, under every key of the file and under no other, a
    thunk for that file and device, in the order of the file; and a
    file that cannot be opened raises without a store. *)
Theorem lazy_state_dict_is_all_thunks (checkpoint : string) (dev : device) :
  match safetensors_keys fs checkpoint with
  | Some sd_keys =>
      exists sd,
        _load_safetensors_state_dict checkpoint dev = (Ok sd, [SafeOpenKeys checkpoint])
        /\ (forall k, dict_get k sd
                      = if bool_decide (k ∈ sd_keys) then Some (Lazy checkpoint dev)
                        else None)
        /\ (NoDup sd_keys -> dict_keys sd = sd_keys)
  | None =>
      _load_safetensors_state_dict checkpoint dev
      = (Raise SafetensorError, [SafeOpenKeys checkpoint])
  end.
Proof.
  unfold _load_safetensors_state_dict.
  destruct (safetensors_keys fs checkpoint) as [sd_keys|]; [|done].
  eexists. split; [done|]. split.
  - intros k. by rewrite set_lazy_tensors_get.
  - intros Hnd. rewrite set_lazy_tensors_keys; [done|done|].
    intros k _. apply not_elem_of_nil.
Qed.

(** ** Merged views *)

(** X14. In a merged view a key is read from the first mapping that has
    it: the mappings before it are passed over without a read, the
    mappings after it are not looked at, and only the entry of that
    first mapping is resolved. *)
Theorem chain_reads_first_holder (key : string) (before after : list store) (m : store) :
  (forall m0, m0 ∈ before -> dict_get key m0 = None) ->
  is_Some (dict_get key m) ->
  chain_getitem key (before ++ m :: after)
  = let '(r, m', ev) := store_getitem key m in (r, before ++ m' :: after, ev).
Proof.
  intros Hbefore Hm. induction before as [|m0 before IH]; simpl.
  - destruct (store_getitem key m) as [[r m'] ev] eqn:E.
    destruct r as [t|e]; [done|]. destruct e; try done.
    exfalso. pose proof (store_getitem_missing key _ _ _ _ E) as [_ Hmiss].
    apply Hmiss; [eauto|]. by apply dict_get_keys.
  - unfold store_getitem at 1. rewrite (Hbefore m0) by left.
    rewrite IH by (intros m1 Hm1; apply Hbefore; by right).
    by destruct (store_getitem key m) as [[r m'] ev].
Qed.

Lemma first_occurrences_NoDup (seen l : list string) : NoDup (first_occurrences seen l).
Proof.
  revert seen. induction l as [|k l IH]; intros seen; simpl; [constructor|].
  case_bool_decide; [apply IH|]. constructor; [|apply IH].
  rewrite first_occurrences_elem. intros [_ Hnot]. apply Hnot. left.
Qed.

(** X15. The keys the loop iterates over for a merged view hold every
    key of every mapping, and each once, also when several mappings
    have the same key. *)
Theorem chain_keys_once (maps : list store) :
  NoDup (view_keys (ChainMap maps))
  /\ forall k, k ∈ view_keys (ChainMap maps) <-> exists m, m ∈ maps /\ k ∈ dict_keys m.
Proof.
  split; [apply first_occurrences_NoDup|].
  intros k. apply (view_keys_has_key k (ChainMap maps)).
Qed.

(** ** Selecting and opening the checkpoint files, continued *)

(** An event that opens a checkpoint file. *)
Definition opens_file (e : io_event) : bool :=
  match e with
  | SafeOpenKeys _ | GetTensor _ _ _ | TorchLoad _ _ => true
  | _ => false
  end.

Lemma first_match_events (model_path : string) (patterns : list string) :
  Forall (fun e => opens_file e = false) (first_match model_path patterns).2.
Proof.
  induction patterns as [|pat rest IH]; simpl; [constructor|].
  destruct (0 <? length (glob fs model_path pat))%nat; simpl; [by repeat constructor|].
  destruct (first_match model_path rest) as [c ev]. simpl in *. by constructor.
Qed.

Lemma find_checkpoints_events (model_path glob_pattern : string) (source : option string) :
  Forall (fun e => opens_file e = false) (find_checkpoints model_path glob_pattern source).2.
Proof.
  unfold find_checkpoints.
  pose proof (first_match_events model_path (glob_pattern_list glob_pattern source)) as Hm.
  destruct (is_dir fs model_path).
  - destruct (first_match model_path _) as [c ev]. simpl in Hm.
    destruct (is_file fs model_path); simpl;
      (constructor; [done|]; apply Forall_app; split; [done|by repeat constructor]).
  - destruct (is_file fs model_path); simpl; by repeat constructor.
Qed.

Lemma first_match_none (model_path : string) (patterns : list string) :
  (forall pattern, pattern ∈ patterns -> glob fs model_path pattern = []) ->
  (first_match model_path patterns).1 = [].
Proof.
  induction patterns as [|pat rest IH]; intros H; simpl; [done|].
  rewrite (H pat) by left. simpl.
  destruct (first_match model_path rest) as [c ev] eqn:E. simpl in *.
  apply IH. intros p Hp. apply H. by right.
Qed.

(** X16. A path that is no file and no directory, or a directory in
    which no pattern tried has a match, ends in the assertion on the
    checkpoints: AssertionError is raised, whatever the source, the
    rank and the world size, and no file has been opened. *)
Theorem checkpoint_not_found (model_path : path_arg) (source : option string)
    (distributed_strategy checkpoint_sharding : option string)
    (initial_device : device) (rank world_size : nat) :
  let path := expanduser fs (path_and_pattern model_path).1 in
  dev_type initial_device <> "meta" ->
  compatible checkpoint_sharding distributed_strategy ->
  is_file fs path = false ->
  (is_dir fs path = false \/ forall pattern, glob fs path pattern = []) ->
  exists ev,
    load_state_dict (Some model_path) source distributed_strategy checkpoint_sharding
                    initial_device rank world_size = (Raise AssertionError, ev)
    /\ Forall (fun e => opens_file e = false) ev.
Proof.
  intros path Hdev Hcomp Hfile Hnone. rewrite load_state_dict_found by done.
  subst path. destruct (path_and_pattern model_path) as [p pat]. simpl in *.
  pose proof (find_checkpoints_events (expanduser fs p) pat source) as Hev.
  assert (Hcs : (find_checkpoints (expanduser fs p) pat source).1 = []).
  { unfold find_checkpoints. rewrite Hfile. destruct Hnone as [Hdir|Hglob].
    - by rewrite Hdir.
    - destruct (is_dir fs (expanduser fs p)); [|done].
      pose proof (first_match_none (expanduser fs p) (glob_pattern_list pat source)
                    (fun q _ => Hglob q)) as Hm.
      by destruct (first_match _ _). }
  destruct (find_checkpoints _ _ _) as [cs ev]. simpl in *. subst cs.
  exists ev. by split.
Qed.

Lemma load_all_one (reader : string -> device -> result store * list io_event)
    (c : string) (dev : device) :
  load_all reader [c] dev
  = let '(r, ev) := reader c dev in (let? sd := r in Ok [sd], ev).
Proof.
  simpl. destruct (reader c dev) as [[sd|e] ev]; [|done]. by rewrite app_nil_r.
Qed.

(** X17. A sharded checkpoint (a sharding other than "layer") must have
    as many files as the world size, or AssertionError is raised; when
    it has, the rank opens the file at its own index in the sorted
    files, and no other file, and a rank past the files raises
    IndexError. *)
Theorem sharded_checkpoint_opens_own_file (model_path : path_arg) (source : option string)
    (distributed_strategy : option string) (sharding : string)
    (initial_device : device) (rank world_size : nat)
    (checkpoints : list string) (ev : list io_event) :
  dev_type initial_device <> "meta" ->
  compatible (Some sharding) distributed_strategy ->
  sharding <> "layer" ->
  find_checkpoints (expanduser fs (path_and_pattern model_path).1)
                   (path_and_pattern model_path).2 source = (checkpoints, ev) ->
  checkpoints <> [] ->
  load_state_dict (Some model_path) source distributed_strategy (Some sharding)
                  initial_device rank world_size
  = if decide (world_size = length checkpoints) then
      match checkpoints !! rank with
      | Some c =>
          let '(r, ev') := reader_for c c initial_device in
          (let? sd := r in Ok (ChainMap [sd]), ev ++ ev')
      | None => (Raise IndexError, ev)
      end
    else (Raise AssertionError, ev).
Proof.
  intros Hdev Hcomp Hlayer Hfind Hne. rewrite load_state_dict_found by done.
  destruct (path_and_pattern model_path) as [p pat]. simpl in Hfind. rewrite Hfind.
  unfold open_selected.
  destruct checkpoints as [|c0 cs]; [done|]. cbn [length Nat.ltb Nat.leb negb].
  rewrite (bool_decide_eq_true_2 (Some sharding ≠ None)) by done.
  rewrite (bool_decide_eq_true_2 (Some sharding ≠ Some "layer")) by congruence.
  cbn [andb]. case_decide as Hws.
  - rewrite (bool_decide_eq_true_2 _ Hws). cbn [negb].
    destruct ((c0 :: cs) !! rank) as [c|]; [|done].
    rewrite (bool_decide_eq_false_2 (Some sharding = None)) by done.
    cbn [andb lookup list_lookup]. rewrite open_selected_reader, load_all_one.
    by destruct (reader_for c c initial_device) as [[sd|e] ev'].
  - by rewrite (bool_decide_eq_false_2 _ Hws).
Qed.

(** X18. An unsharded checkpoint under the "fsdp" or "hsdp" strategy is
    opened by rank 0 only, and only its first file; every other rank
    gets an empty dict and opens nothing. *)
Theorem unsharded_fsdp_opens_on_rank_zero (model_path : path_arg) (source : option string)
    (distributed_strategy : option string) (initial_device : device)
    (rank world_size : nat) (first : string) (rest : list string) (ev : list io_event) :
  dev_type initial_device <> "meta" ->
  distributed_strategy = Some "fsdp" \/ distributed_strategy = Some "hsdp" ->
  find_checkpoints (expanduser fs (path_and_pattern model_path).1)
                   (path_and_pattern model_path).2 source = (first :: rest, ev) ->
  load_state_dict (Some model_path) source distributed_strategy None
                  initial_device rank world_size
  = if decide (rank = 0) then
      let '(r, ev') := reader_for first first initial_device in
      (let? sd := r in Ok (ChainMap [sd]), ev ++ ev')
    else (Ok (Dict []), ev).
Proof.
  intros Hdev Hstrat Hfind. rewrite load_state_dict_found; [|done|by split].
  destruct (path_and_pattern model_path) as [p pat]. simpl in Hfind. rewrite Hfind.
  unfold open_selected. cbn [length Nat.ltb Nat.leb negb].
  rewrite (bool_decide_eq_false_2 (None ≠ None)) by (intros H; by apply H).
  cbn [andb]. rewrite (bool_decide_eq_true_2 (None = None)) by done.
  rewrite (bool_decide_eq_true_2 (distributed_strategy ∈ _))
    by (rewrite !elem_of_cons; destruct Hstrat; auto).
  cbn [andb]. case_decide as Hr.
  - rewrite (bool_decide_eq_true_2 _ Hr). cbn [lookup list_lookup].
    rewrite open_selected_reader, load_all_one.
    by destruct (reader_for first first initial_device) as [[sd|e] ev'].
  - by rewrite (bool_decide_eq_false_2 _ Hr).
Qed.

(** X19. Without sharding, or with "layer" sharding, and outside the
    rank-0 case of "fsdp" and "hsdp", all the files found are opened,
    in sorted order, into one merged view; the reader is chosen by the
    suffix of the first file and used for every file. *)
Theorem unsharded_checkpoint_opens_all (model_path : path_arg) (source : option string)
    (distributed_strategy checkpoint_sharding : option string)
    (initial_device : device) (rank world_size : nat)
    (first : string) (rest : list string) (ev : list io_event) :
  dev_type initial_device <> "meta" ->
  (checkpoint_sharding = Some "layer"
   \/ (checkpoint_sharding = None /\ distributed_strategy <> Some "fsdp"
       /\ distributed_strategy <> Some "hsdp")) ->
  find_checkpoints (expanduser fs (path_and_pattern model_path).1)
                   (path_and_pattern model_path).2 source = (first :: rest, ev) ->
  load_state_dict (Some model_path) source distributed_strategy checkpoint_sharding
                  initial_device rank world_size
  = let '(r, ev') := load_all (reader_for first) (first :: rest) initial_device in
    (let? checkpoint_sds := r in Ok (ChainMap checkpoint_sds), ev ++ ev').
Proof.
  intros Hdev Hcase Hfind.
  rewrite load_state_dict_found;
    [|done|split; intros Hs; destruct Hcase as [Hl|[Hn _]]; congruence].
  destruct (path_and_pattern model_path) as [p pat]. simpl in Hfind. rewrite Hfind.
  unfold open_selected. cbn [length Nat.ltb Nat.leb negb].
  destruct Hcase as [->|(-> & Hf & Hh)].
  - rewrite (bool_decide_eq_false_2 (Some "layer" ≠ Some "layer"))
      by (intros H; by apply H).
    rewrite andb_false_r. rewrite (bool_decide_eq_false_2 (Some "layer" = None)) by done.
    cbn [andb lookup list_lookup]. by rewrite open_selected_reader.
  - rewrite (bool_decide_eq_false_2 (None ≠ None)) by (intros H; by apply H).
    cbn [andb]. rewrite (bool_decide_eq_false_2 (distributed_strategy ∈ _))
      by (rewrite !elem_of_cons, elem_of_nil; intros [?|[?|[]]]; done).
    rewrite andb_false_r. cbn [lookup list_lookup]. by rewrite open_selected_reader.
Qed.

(** ** The path argument *)

Lemma partition_star_spec (s : string) :
  let '(before, sep, after) := partition_star s in
  String.append before (String.append sep after) = s
  /\ has_char "*"%char before = false
  /\ sep = (if has_char "*"%char s then "*" else "")
  /\ (has_char "*"%char s = false -> after = "").
Proof.
  induction s as [|c s IH]; [done|].
  cbn [partition_star has_char]. rewrite (Ascii.eqb_sym "*" c).
  destruct (Ascii.eqb c "*") eqn:Ec.
  - apply Ascii.eqb_eq in Ec. by subst c.
  - destruct (partition_star s) as [[before sep] after].
    destruct IH as (Happ & Hb & Hsep & Ha). cbn [orb].
    split; [by rewrite <- Happ|].
    split; [|by split].
    cbn [has_char]. by rewrite (Ascii.eqb_sym "*" c), Ec, Hb.
Qed.

(** X20. A glob in the path decides the files alone: when the path has
    a star, [load_state_dict] gives the same result, with the same
    accesses, for every source. *)
Theorem glob_overrides_source (s : string) (source source' : option string)
    (distributed_strategy checkpoint_sharding : option string)
    (initial_device : device) (rank world_size : nat) :
  has_char "*"%char s = true ->
  load_state_dict (Some (StrPath s)) source distributed_strategy checkpoint_sharding
                  initial_device rank world_size
  = load_state_dict (Some (StrPath s)) source' distributed_strategy checkpoint_sharding
                    initial_device rank world_size.
Proof.
  intros Hstar. unfold load_state_dict.
  pose proof (partition_star_spec s) as Hp.
  destruct (partition_star s) as [[before sep] after].
  destruct Hp as (_ & _ & -> & _). rewrite Hstar.
  unfold find_checkpoints, glob_pattern_list. done.
Qed.

Lemma append_empty_r (s : string) : String.append s "" = s.
Proof.
  induction s as [|c s IH]; [done|].
  change (String c (String.append s "") = String c s). by rewrite IH.
Qed.

(** X21. A path given as a string without a star is treated as the same
    path given as a [Path]: the whole string is the path and no glob
    is taken from it. *)
Theorem str_path_without_star (s : string) (source : option string)
    (distributed_strategy checkpoint_sharding : option string)
    (initial_device : device) (rank world_size : nat) :
  has_char "*"%char s = false ->
  load_state_dict (Some (StrPath s)) source distributed_strategy checkpoint_sharding
                  initial_device rank world_size
  = load_state_dict (Some (PathObj s)) source distributed_strategy checkpoint_sharding
                    initial_device rank world_size.
Proof.
  intros Hstar. unfold load_state_dict.
  pose proof (partition_star_spec s) as Hp.
  destruct (partition_star s) as [[before sep] after].
  destruct Hp as (Happ & _ & -> & Ha). rewrite Hstar in *.
  rewrite (Ha eq_refl) in *. change (String.append before "" = s) in Happ.
  rewrite append_empty_r in Happ. by rewrite Happ.
Qed.

(** ** The loop over the view *)

Lemma fetch_device (dev : device) (key : string) (st st' : lstate) (t : tensor) :
  fetch dev key st = (Ok t, st') -> t_device t = dev.
Proof.
  unfold fetch. destruct (view_getitem key (st_sd st)) as [[[t0|e] v] ev]; [|done].
  simpl. intros [= <- _]. case_bool_decide as Hd; [done|].
  by destruct (decide (t_device t0 = dev)).
Qed.

Lemma dict_set_Forall {V} (P : string * V -> Prop) (k : string) (v : V)
    (d : list (string * V)) :
  Forall P d -> P (k, v) -> Forall P (dict_set k v d).
Proof.
  intros Hd Hkv. induction Hd as [|[k0 v0] d H0 Hd IH]; simpl; [by repeat constructor|].
  destruct (String.eqb k k0); by constructor.
Qed.

Lemma gather_missing_devices (dev : device) (missing : list string)
    (partial_sd partial_sd' : list (string * tensor)) (st st' : lstate) :
  Forall (fun kv => t_device kv.2 = dev) partial_sd ->
  gather_missing dev missing partial_sd st = (Ok partial_sd', st') ->
  Forall (fun kv => t_device kv.2 = dev) partial_sd'.
Proof.
  revert partial_sd st. induction missing as [|weight rest IH]; intros partial_sd st Hp; simpl.
  - by intros [= <- _].
  - destruct (fetch dev weight (add_used weight st)) as [[t|e] st1] eqn:E; [|done].
    apply IH. apply dict_set_Forall; [done|]. simpl. by eapply fetch_device.
Qed.

(** X22. Every tensor of the [partial_sd] of an iteration, the key of
    the iteration and the weights gathered for the adapter alike, is on
    [initial_device] when the adapter last sees it. *)
Theorem gathered_tensors_on_initial_device (a : adapter) (initial_device : device)
    (key : string) (st st' : lstate) (partial_sd fms_partial_sd : list (string * tensor)) :
  gather a initial_device key st = (Ok (partial_sd, fms_partial_sd), st') ->
  a partial_sd = Ok fms_partial_sd
  /\ Forall (fun kv => t_device kv.2 = initial_device) partial_sd.
Proof.
  unfold gather.
  destruct (fetch initial_device key (add_used key st)) as [[t|e] st1] eqn:E; [|done].
  apply fetch_device in E.
  assert (H0 : Forall (fun kv : string * tensor => t_device kv.2 = initial_device)
                      [(key, t)]) by (by repeat constructor).
  destruct (a [(key, t)]) as [fms|e] eqn:Ea.
  - by intros [= <- <- _].
  - destruct e; try done.
    destruct (gather_missing _ _ _ _) as [[p'|e] st2] eqn:Eg; [|done].
    destruct (a p') as [fms|e] eqn:Ea'; [|done].
    intros [= <- <- _]. split; [done|]. by eapply gather_missing_devices.
Qed.

Lemma view_getitem_absent (key : string) (v : view) :
  ~ has_key key v -> view_getitem key v = (Raise (KeyError key), v, []).
Proof.
  intros Hnot. destruct v as [d|maps]; simpl in *.
  - unfold store_getitem. destruct (dict_get key d) eqn:E; [|done].
    exfalso. apply Hnot, dict_get_keys. by rewrite E.
  - rewrite chain_getitem_absent; [done|]. intros m Hm.
    destruct (dict_get key m) eqn:E; [|done].
    exfalso. apply Hnot. exists m. split; [done|]. apply dict_get_keys. by rewrite E.
Qed.

Lemma gather_missing_app (dev : device) (l1 l2 : list string)
    (partial_sd : list (string * tensor)) (st : lstate) :
  gather_missing dev (l1 ++ l2) partial_sd st
  = match gather_missing dev l1 partial_sd st with
    | (Ok partial_sd', st') => gather_missing dev l2 partial_sd' st'
    | (Raise e, st') => (Raise e, st')
    end.
Proof.
  revert partial_sd st. induction l1 as [|w l1 IH]; intros partial_sd st; simpl; [done|].
  destruct (fetch dev w (add_used w st)) as [[t|e] st1]; [apply IH|done].
Qed.

(** X23. When the adapter asks for weights and, after the ones before
    it have been read, one of them is not in the view, the iteration
    raises KeyError for that weight: the load stops there with the
    model as it was, the weight already marked as used. *)
Theorem missing_weight_raises_key_error (model : Obj) (a : adapter)
    (needs_tp_sharding : bool) (initial_device : device) (rank world_size : nat)
    (key weight : string) (found rest : list string) (t : tensor)
    (partial_sd : list (string * tensor)) (st st1 st2 : lstate) :
  fetch initial_device key (add_used key st) = (Ok t, st1) ->
  a [(key, t)] = Raise (FusableWeightsMissingError (found ++ weight :: rest)) ->
  gather_missing initial_device found [(key, t)] st1 = (Ok partial_sd, st2) ->
  ~ has_key weight (st_sd st) ->
  exists st',
    load_iteration model a needs_tp_sharding initial_device rank world_size key st
    = Raised (KeyError weight) st'
    /\ st_model st' = st_model st
    /\ weight ∈ st_used st'.
Proof.
  intros Hf Ha Hg Hnot.
  pose proof (fetch_spec _ _ _ _ _ Hf) as (Hk1 & _ & _ & Hm1). simpl in Hk1, Hm1.
  pose proof (gather_missing_spec _ _ _ _ _ _ Hg) as (Hk2 & _ & Hm2 & _).
  assert (Hnot2 : ~ has_key weight (st_sd st2)) by (by rewrite Hk2, Hk1).
  exists (set_sd (st_sd st2) [] (add_used weight st2)).
  split; [|split].
  - unfold load_iteration, gather. rewrite Hf, Ha, gather_missing_app, Hg.
    cbn [gather_missing]. unfold fetch. cbn [st_sd add_used].
    by rewrite view_getitem_absent.
  - simpl. congruence.
  - simpl. set_solver.
Qed.

(** The reads of files that resolving the entries of a store takes, in
    the order of its keys. *)
Definition entry_reads (key : string) (e : entry) : list io_event :=
  match e with
  | Lazy file dev => [GetTensor file key dev]
  | Resolved _ => []
  end.

Definition lazy_reads (sd : store) : list io_event :=
  flat_map (fun kv => entry_reads kv.1 kv.2) sd.

Lemma dict_del_absent {V} (k : string) (d : list (string * V)) :
  k ∉ dict_keys d -> dict_del k d = d.
Proof.
  unfold dict_keys. induction d as [|[k0 v0] d IH]; simpl; [done|].
  intros [Hne Hnot]%not_elem_of_cons.
  rewrite (proj2 (String.eqb_neq k k0)) by done. f_equal. by apply IH.
Qed.

(** One completed iteration on the first key of a dict, for an adapter
    that does not ask for more weights. *)
Lemma load_iteration_dict_head (model : Obj) (a : adapter) (needs_tp_sharding : bool)
    (dev : device) (rank world_size : nat) (key : string) (e : entry) (d : store)
    (st st1 : lstate) :
  st_sd st = Dict ((key, e) :: d) ->
  key ∉ dict_keys d ->
  (forall sd ms, a sd <> Raise (FusableWeightsMissingError ms)) ->
  load_iteration model a needs_tp_sharding dev rank world_size key st = Done st1 ->
  st_sd st1 = Dict d
  /\ st_io st1 = st_io st ++ entry_reads key e
  /\ st_used st1 = {[key]} ∪ st_used st.
Proof.
  intros Hsd Hfresh Ha. unfold load_iteration, gather, fetch. cbn [st_sd add_used].
  rewrite Hsd. cbn [view_getitem]. unfold store_getitem, dict_get. cbn [assoc].
  rewrite String.eqb_refl.
  assert (Hevict : forall t h st0,
    st_sd st0 = Dict ((key, Resolved t) :: d) ->
    evict [key] (set_model h st0) = Done st1 ->
    st_sd st1 = Dict d /\ st_io st1 = st_io st0 /\ st_used st1 = st_used st0).
  { intros t h st0 Hsd0. cbn [evict st_sd set_model]. rewrite Hsd0.
    cbn [view_evict]. unfold store_pop, store_getitem, dict_get. cbn [assoc].
    rewrite String.eqb_refl. cbn [dict_del]. rewrite String.eqb_refl.
    rewrite dict_del_absent by done. intros [= <-]. simpl. by rewrite app_nil_r. }
  destruct e as [t|file dv]; cbn [entry_reads].
  - cbn [rbind].
    destruct (a _) as [fms|err] eqn:Ea;
      [|destruct err; try done; by exfalso; eapply Ha].
    destruct (_load_partial_state_dict _ _ _ _ _ _) as [h1|err h1]; [|done].
    intros He. eapply Hevict in He as (H1 & H2 & H3); [|reflexivity].
    split; [done|]. split; [|done]. rewrite H2. simpl. done.
  - destruct (_get_safetensors_item key file dv) as [t|err]; [|done].
    cbn [rbind dict_set]. rewrite String.eqb_refl.
    destruct (a _) as [fms|err] eqn:Ea;
      [|destruct err; try done; by exfalso; eapply Ha].
    destruct (_load_partial_state_dict _ _ _ _ _ _) as [h1|err h1]; [|done].
    intros He. eapply Hevict in He as (H1 & H2 & H3); [|reflexivity].
    split; [done|]. split; [|done]. rewrite H2. simpl. done.
Qed.

Lemma load_loop_dict_reads (model : Obj) (a : adapter) (needs_tp_sharding : bool)
    (dev : device) (rank world_size : nat) (d : store) :
  (forall sd ms, a sd <> Raise (FusableWeightsMissingError ms)) ->
  forall st st',
    st_sd st = Dict d -> NoDup (dict_keys d) ->
    (forall k, k ∈ dict_keys d -> k ∉ st_used st) ->
    load_loop model a needs_tp_sharding dev rank world_size (dict_keys d) st = Done st' ->
    st_sd st' = Dict [] /\ st_io st' = st_io st ++ lazy_reads d.
Proof.
  intros Ha. induction d as [|[key e] d IH]; intros st st' Hsd Hnd Hused.
  - simpl. intros [= <-]. split; [done|]. by rewrite app_nil_r.
  - cbn [dict_keys fmap list_fmap fst load_loop].
    inversion Hnd as [|? ? Hfresh Hnd']; subst.
    rewrite bool_decide_eq_false_2 by (apply Hused; left).
    intros (st1 & Hit & Hl)%and_then_Done.
    eapply load_iteration_dict_head in Hit as (Hsd1 & Hio1 & Hu1); [|done|done|done].
    apply IH in Hl as [Hsd' Hio']; [|done|done|].
    + split; [done|]. rewrite Hio', Hio1. unfold lazy_reads. simpl.
      by rewrite app_assoc.
    + intros k Hk. rewrite Hu1. intros [Hin|Hin]%elem_of_union.
      * apply elem_of_singleton in Hin. by subst.
      * eapply Hused; [|done]. by right.
Qed.

(** X24. With a dict as the view, distinct keys and an adapter that
    does not ask for more weights (the identity among them): a load
    that completes has read every tensor that was still a thunk exactly
    once, in the order of the keys, has read nothing else, and leaves
    the dict empty. *)
Theorem dict_load_reads_each_thunk_once (adapters : registry) (model : Obj) (h : heap)
    (d : store) (architecture : string) (source : option string)
    (distributed_strategy checkpoint_sharding : option string)
    (initial_device : device) (rank world_size : nat) (v : pyvalue) (st' : lstate) :
  NoDup (dict_keys d) ->
  (forall sd ms, _get_adapter adapters architecture source sd
                 <> Raise (FusableWeightsMissingError ms)) ->
  load_state_dict_into_model adapters model h (Dict d) architecture source
    distributed_strategy checkpoint_sharding initial_device rank world_size = (Ok v, st') ->
  st_io st' = lazy_reads d /\ st_sd st' = Dict [].
Proof.
  intros Hnd Ha. unfold load_state_dict_into_model.
  destruct (load_loop _ _ _ _ _ _ _ _) as [st|e st] eqn:El; [|done].
  intros [= _ <-]. cbn [view_keys] in El.
  eapply load_loop_dict_reads in El as [Hsd Hio]; [| exact Ha | done | done |].
  - by split.
  - intros k _. simpl. set_solver.
Qed.

(** X25. Through the loader, for a weight below a [TPModule] that names
    its parent as column-wise only: when TP sharding is needed and the
    parameter has [p] of the [n * p] rows of the checkpoint tensor, the
    parameter of rank [rank < n] takes rows [rank * p] up to
    [(rank + 1) * p], converted to the dtype of the parameter, no other
    parameter changes and the key is not recorded as unused. The rows
    are those of the checkpoint tensor unchanged when the conversion
    changes none of its elements. *)
Theorem load_key_colwise_weight (model target : Obj) (tp : tp_names)
    (rank n p c r : nat) (key parent : string) (dev : device)
    (rows : list (list A)) (h : heap) (u : list string) :
  walk h model None (split_dot key) = Ok (target, Some tp, false) ->
  getattr target (last_step (split_dot key)) = Some (Param r) ->
  last_step (split_dot key) <> "bias" ->
  parent_step (split_dot key) = Ok parent ->
  parent ∈ colwise_param_names tp ->
  parent ∉ rowwise_param_names tp ->
  parent ∉ embedding_param_names tp ->
  Forall (fun row => length row = c) rows -> length rows = n * p -> rank < n ->
  shape (h r) = [p; c] ->
  load_key model true rank n key {| t_device := dev; t_data := T2 c rows |} (h, u)
  = Done (<[r := T2 c (py_slice (rank * p) ((rank + 1) * p)
                         (map (map (dtype_of r)) rows))]> h, u)
  /\ (exact_in (dtype_of r) (T2 c rows) ->
      load_key model true rank n key {| t_device := dev; t_data := T2 c rows |} (h, u)
      = Done (<[r := T2 c (py_slice (rank * p) ((rank + 1) * p) rows)]> h, u)).
Proof.
  intros Hw Hg Hbias Hparent Hcol Hrow Hemb Hwf Hlen Hrank Hs.
  assert (Hload :
    load_key model true rank n key {| t_device := dev; t_data := T2 c rows |} (h, u)
    = Done (<[r := T2 c (py_slice (rank * p) ((rank + 1) * p)
                           (map (map (dtype_of r)) rows))]> h, u)).
  { unfold load_key. rewrite Hw. unfold load_param. rewrite Hg, Hparent.
    cbn [negb orb is_none]. unfold name_in.
    rewrite (bool_decide_eq_true_2 _ Hcol), (bool_decide_eq_false_2 _ Hrow),
      (bool_decide_eq_false_2 _ Hemb).
    rewrite (proj2 (String.eqb_neq _ _) Hbias).
    cbn [on_param t_data]. by rewrite (colwise_weight_shard _ _ c p n) by done. }
  split; [done|]. unfold exact_in. cbn [to_dtype]. intros Hex.
  injection Hex as Hex. by rewrite Hload, Hex.
Qed.

End Serialization.

Arguments T0 {A} x.
Arguments T1 {A} v.
Arguments T2 {A} ncols rows.
Arguments Build_tensor {A} t_device t_data.
Arguments t_device {A} t.
Arguments t_data {A} t.
Arguments Resolved {A} t.
Arguments Lazy {A} file dev.
Arguments Dict {A} d.
Arguments ChainMap {A} maps.
Arguments st_model {A} l.
Arguments st_sd {A} l.
Arguments st_io {A} l.
Arguments st_used {A} l.

(** * Worked examples on integer tensors *)

Definition cpu : device := {| dev_type := "cpu"; dev_index := None |}.
Definition meta : device := {| dev_type := "meta"; dev_index := None |}.

Definition on_cpu (d : tdata Z) : tensor Z := {| t_device := cpu; t_data := d |}.

(** A parameter of the dtype of the checkpoint: the conversion changes
    nothing. In the examples every parameter of the model has it. *)
Definition same_dtype : Z -> Z := fun x => x.

Definition model_dtype : nat -> Z -> Z := fun _ => same_dtype.

(** A dtype with fewer values, in which only the even numbers are
    kept, as float16 keeps 2048 of 2049. *)
Definition coarse_dtype : Z -> Z := fun x => (2 * (x / 2))%Z.

(** A file system with one directory of two safetensors shards and one
    pickle file; each shard holds one tensor. *)
Definition example_fs : filesystem Z := {|
  expanduser := fun p => p;
  is_dir := fun p => String.eqb p "ckpt";
  is_file := fun p => String.eqb p "ckpt/model.bin" ||
                      String.eqb p "ckpt/b.safetensors" ||
                      String.eqb p "ckpt/a.safetensors";
  glob := fun p pattern =>
    if String.eqb p "ckpt" then
      if String.eqb pattern "*.safetensors"
      then ["ckpt/b.safetensors"; "ckpt/a.safetensors"]
      else if String.eqb pattern "*.bin" then ["ckpt/model.bin"]
      else []
    else [];
  suffix := fun p => if String.eqb p "ckpt/model.bin" then ".bin" else ".safetensors";
  safetensors_keys := fun p =>
    if String.eqb p "ckpt/a.safetensors" then Some ["head.weight"]
    else if String.eqb p "ckpt/b.safetensors" then Some ["head.bias"]
    else None;
  get_tensor := fun p key =>
    if String.eqb p "ckpt/a.safetensors" && String.eqb key "head.weight"
    then Some (T2 2 [[1; 2]; [3; 4]])%Z
    else if String.eqb p "ckpt/b.safetensors" && String.eqb key "head.bias"
    then Some (T1 [5; 6])%Z
    else None;
  torch_load := fun p dev =>
    if String.eqb p "ckpt/model.bin" then Some [("head.bias", on_cpu (T1 [5; 6]%Z))]
    else None |}.

(** A model with a linear head: a weight of two rows and a bias. *)
Definition head_model : Obj :=
  Module None [("head", Module None [("weight", Param 0); ("bias", Param 1)])].

Definition head_heap : nat -> tdata Z :=
  fun r => if decide (r = 0) then T2 2 [[0; 0]; [0; 0]]%Z else T1 [0; 0]%Z.

(** The view [load_state_dict] gives for the two shards. *)
Definition two_shards : view Z :=
  ChainMap [ [("head.weight", Lazy "ckpt/a.safetensors" cpu)];
             [("head.bias", Lazy "ckpt/b.safetensors" cpu)] ].

Example load_two_shards :
  (load_state_dict Z example_fs (Some (StrPath "ckpt")) None None None cpu 0 1).1
  = Ok two_shards.
Proof. reflexivity. Qed.

(** ** Sharding *)

(** Two ranks, each with a parameter of one row of a two-by-two weight
    and of the dtype of the checkpoint. *)
Lemma shards_reconstruct_full_witness :
  exists shards,
    for_ranks (fun rank => shard_copy Z 0%Z same_dtype (Colwise false) (T2 2 [[0; 0]]%Z)
                             (T2 2 [[1; 2]; [3; 4]]%Z) rank 2) (seq 0 2) = Ok shards
    /\ length shards = 2
    /\ cat Z (cat_along Z (Colwise false)) shards = Ok (T2 2 [[1; 2]; [3; 4]]%Z).
Proof.
  destruct (shards_reconstruct_full Z 0%Z same_dtype (Colwise false) 2 1
              (T2 2 [[1; 2]; [3; 4]]%Z) (fun _ => T2 2 [[0; 0]]%Z))
    as (shards & Hcopy & Hlen & _ & Hexact).
  - lia.
  - simpl. repeat constructor.
  - reflexivity.
  - intros rank _. reflexivity.
  - exists shards. split; [exact Hcopy|]. split; [exact Hlen|].
    apply Hexact. reflexivity.
Defined.

(** C2, as stated, fails in two ways. With parameters of a dtype that
    does not hold every value of the checkpoint, the copies succeed and
    the shards put together are the converted tensor, not the original.
    And a column-wise weight that is a vector, cut in two equal parts
    for parameters of that size, cannot be copied at all: the slice
    asks for two dimensions and raises IndexError. *)
Lemma shards_differ_from_full :
  (exists shards,
     for_ranks (fun rank => shard_copy Z 0%Z coarse_dtype (Colwise false) (T2 2 [[0; 0]]%Z)
                              (T2 2 [[1; 2]; [3; 4]]%Z) rank 2) (seq 0 2) = Ok shards
     /\ cat Z (cat_along Z (Colwise false)) shards = Ok (T2 2 [[0; 2]; [2; 4]]%Z)
     /\ cat Z (cat_along Z (Colwise false)) shards <> Ok (T2 2 [[1; 2]; [3; 4]]%Z))
  /\ shape Z (T1 [0]%Z) = shard_shape Z (Colwise false) 1 (T1 [1; 2]%Z)
  /\ for_ranks (fun rank => shard_copy Z 0%Z same_dtype (Colwise false) (T1 [0]%Z)
                              (T1 [1; 2]%Z) rank 2) (seq 0 2) = Raise IndexError.
Proof.
  split; [|split; reflexivity].
  eexists. split; [reflexivity|]. split; [reflexivity|discriminate].
Qed.

Example rowwise_shards :
  for_ranks (fun rank => shard_copy Z 0%Z same_dtype Rowwise (T2 1 [[0]; [0]]%Z)
                           (T2 2 [[1; 2]; [3; 4]]%Z) rank 2) (seq 0 2)
  = Ok [T2 1 [[1]; [3]]; T2 1 [[2]; [4]]]%Z.
Proof. reflexivity. Qed.

Lemma rowwise_bias_sum_witness :
  exists loaded,
    for_ranks (fun rank => _copy_rowwise Z 0%Z same_dtype (T1 [0; 0]%Z) (T1 [5; 6]%Z)
                             true rank 3)
              (seq 0 3) = Ok loaded
    /\ loaded !! 0 = Some (T1 [5; 6]%Z)
    /\ (forall rank, 0 < rank < 3 -> loaded !! rank = Some (T1 (replicate 2 0%Z)))
    /\ sum_ranks Z Z.add loaded = Ok (T1 [5; 6]%Z).
Proof.
  destruct (rowwise_bias_sum Z 0%Z (fun _ => same_dtype) Z.add 3 [5; 6]%Z
              (fun _ => T1 [0; 0]%Z))
    as (loaded & Hcopy & _ & Hzero & _ & Hexact).
  - intros x. lia.
  - lia.
  - intros rank _. reflexivity.
  - exists loaded. split; [exact Hcopy|].
    destruct Hexact as [Hfirst Hsum]; [reflexivity|].
    split; [exact Hfirst|]. split; [exact Hzero|exact Hsum].
Defined.

(** C3, as stated, fails when the parameter of rank 0 has a dtype that
    does not hold every value of the bias: the loads succeed, rank 0
    holds the converted bias and the sum over the ranks is the converted
    bias, neither of which is the original. *)
Lemma rowwise_bias_converted :
  exists loaded,
    for_ranks (fun rank => _copy_rowwise Z 0%Z coarse_dtype (T1 [0; 0]%Z) (T1 [5; 6]%Z)
                             true rank 3)
              (seq 0 3) = Ok loaded
    /\ loaded !! 0 = Some (T1 [4; 6]%Z)
    /\ loaded !! 0 <> Some (T1 [5; 6]%Z)
    /\ sum_ranks Z Z.add loaded = Ok (T1 [4; 6]%Z)
    /\ sum_ranks Z Z.add loaded <> Ok (T1 [5; 6]%Z).
Proof.
  eexists. split; [reflexivity|]. repeat split; try reflexivity; discriminate.
Qed.

(** ** Keys that do not match *)

(** The checkpoint has a key of a module the model does not have. *)
Definition stray_view : view Z := Dict [("tail.weight", Resolved (on_cpu (T1 [1; 2]%Z)))].

(** C1, as stated, fails here: the call completes and returns None,
    which holds no key; and the list that [_load_partial_state_dict]
    builds for the key, which is not returned, holds the key twice. *)
Lemma unmatched_key_not_returned_once :
  lookup_fails Z head_heap head_model "tail.weight"
  /\ (load_state_dict_into_model Z 0%Z model_dtype example_fs ∅ head_model head_heap stray_view
        "llama" None None None cpu 0 1).1 = Ok PyNone
  /\ (forall keys,
        (load_state_dict_into_model Z 0%Z model_dtype example_fs ∅ head_model head_heap stray_view
           "llama" None None None cpu 0 1).1 <> Ok (PyKeys keys))
  /\ exists h,
       _load_partial_state_dict_locals Z 0%Z model_dtype head_model
         [("tail.weight", on_cpu (T1 [1; 2]%Z))] false 0 1 head_heap
       = Done (h, ["tail.weight"; "tail.weight"]).
Proof.
  split; [by left|]. split; [reflexivity|]. split; [by intros keys|].
  eexists. reflexivity.
Qed.

Lemma load_consumes_view_witness :
  (load_state_dict_into_model Z 0%Z model_dtype example_fs ∅ head_model head_heap two_shards
     "llama" None None None cpu 0 1).1 = Ok PyNone
  /\ view_keys Z (st_sd (load_state_dict_into_model Z 0%Z model_dtype example_fs ∅ head_model
                           head_heap two_shards "llama" None None None cpu 0 1).2) = [].
Proof.
  split; [reflexivity|].
  eapply (load_consumes_view_returns_none Z 0%Z model_dtype example_fs ∅ head_model head_heap
            two_shards "llama" None None None cpu 0 1 PyNone).
  rewrite (surjective_pairing (load_state_dict_into_model _ _ _ _ _ _ _ _ _ _ _ _ _ _ _)) at 1.
  f_equal.
Defined.

Example load_fills_the_head :
  let st := (load_state_dict_into_model Z 0%Z model_dtype example_fs ∅ head_model head_heap two_shards
               "llama" None None None cpu 0 1).2 in
  st_model st 0 = T2 2 [[1; 2]; [3; 4]]%Z
  /\ st_model st 1 = T1 [5; 6]%Z
  /\ st_sd st = ChainMap [[]; []]
  /\ st_io st = [GetTensor "ckpt/b.safetensors" "head.bias" cpu;
                 GetTensor "ckpt/a.safetensors" "head.weight" cpu].
Proof. repeat split. Qed.

(** A bare linear layer as the model. *)
Definition bare_layer : Obj := Module None [("weight", Param 0); ("bias", Param 1)].

(** C5 fails here. The checkpoint has a key below a module the layer
    does not have. The walk stops at the layer itself and the key is
    recorded as unused; the code then looks the last step up on the
    layer, finds the bias of the layer and copies into it. With a tensor
    of another size the copy raises RuntimeError and the load is
    aborted, also from [load_state_dict_into_model]; with a tensor of
    the same size the bias of the layer is overwritten by the tensor of
    the unused key. *)
Lemma walk_failure_falls_through_to_copy :
  lookup_fails Z head_heap bare_layer "extra.bias"
  /\ _load_partial_state_dict Z 0%Z model_dtype bare_layer
       [("extra.bias", on_cpu (T1 [7; 8; 9]%Z))] false 0 1 head_heap
     = Raised RuntimeError head_heap
  /\ (load_state_dict_into_model Z 0%Z model_dtype example_fs ∅ bare_layer head_heap
        (Dict [("extra.bias", Resolved (on_cpu (T1 [7; 8; 9]%Z)));
               ("bias", Resolved (on_cpu (T1 [5; 6]%Z)))])
        "llama" None None None cpu 0 1).1 = Raise RuntimeError
  /\ exists h,
       _load_partial_state_dict_locals Z 0%Z model_dtype bare_layer
         [("extra.bias", on_cpu (T1 [7; 8]%Z))] false 0 1 head_heap
       = Done (h, ["extra.bias"]) /\ h 1 = T1 [7; 8]%Z.
Proof.
  split; [by left|]. split; [reflexivity|]. split; [reflexivity|].
  eexists. split; reflexivity.
Qed.

(** ** Validation *)

(** C4, as stated, fails on the "meta" device (and when no path is
    given): the function returns an empty dict before it looks at the
    sharding, and raises nothing. *)
Lemma meta_device_skips_validation :
  load_state_dict Z example_fs (Some (StrPath "ckpt")) None (Some "tp") (Some "fsdp")
                  meta 0 1 = (Ok (Dict []), [])
  /\ load_state_dict Z example_fs (Some (StrPath "ckpt")) None None (Some "tp")
                     meta 0 1 = (Ok (Dict []), [])
  /\ load_state_dict Z example_fs None None (Some "tp") (Some "fsdp")
                     cpu 0 1 = (Ok (Dict []), []).
Proof. repeat split. Qed.

Lemma incompatible_sharding_rejected_witness :
  load_state_dict Z example_fs (Some (StrPath "ckpt")) None (Some "tp") (Some "fsdp")
                  cpu 0 1
  = (Raise (ValueError "FSDP checkpoints can only be loaded into an FSDP model"), [])
  /\ load_state_dict Z example_fs (Some (StrPath "ckpt")) None (Some "fsdp") (Some "tp")
                     cpu 0 1
     = (Raise (ValueError "TP checkpoints can only be loaded into a TP model"), []).
Proof.
  destruct (incompatible_sharding_rejected Z example_fs (StrPath "ckpt") None cpu 0 1)
    as [Hfsdp Htp].
  - discriminate.
  - split; [exact Hfsdp|]. apply Htp. discriminate.
Defined.

(** ** Eviction from a merged view *)

Definition two_shards_state : lstate Z :=
  {| st_model := head_heap; st_sd := two_shards; st_io := []; st_used := ∅ |}.

Definition after_bias : lstate Z :=
  match load_iteration Z 0%Z model_dtype example_fs head_model (fun x => Ok x) false cpu 0 1
          "head.bias" two_shards_state with
  | Done st => st
  | Raised _ st => st
  end.


Example bias_evicted :
  st_sd after_bias = ChainMap [[("head.weight", Lazy "ckpt/a.safetensors" cpu)]; []].
Proof. reflexivity. Qed.

(** ** The registry *)

Definition rename_adapter : adapter Z :=
  fun sd => Ok (map (fun kv => (String.append "model." kv.1, kv.2)) sd).

Definition example_registry : gmap string (gmap string (adapter Z)) :=
  {[ "llama" := {[ "hf" := rename_adapter ]} ]}.

Example register_twice :
  register_adapter Z ∅ "llama" "hf" rename_adapter = Ok example_registry
  /\ register_adapter Z example_registry "llama" "hf" rename_adapter
     = Raise (KeyError "Variant hf already registered for architecture llama").
Proof. split; reflexivity. Qed.

Lemma get_adapted_identity_witness :
  get_adapted Z example_registry "llama" None [("w", on_cpu (T0 1%Z))]
    = Ok [("w", on_cpu (T0 1%Z))]
  /\ get_adapted Z example_registry "llama" (Some "meta") [("w", on_cpu (T0 1%Z))]
     = Ok [("w", on_cpu (T0 1%Z))].
Proof.
  destruct (get_adapted_identity Z example_registry "llama" [("w", on_cpu (T0 1%Z))])
    as [Hnone Hsome].
  split; [exact Hnone|]. apply Hsome.
  intros (sources & a & Hs & Ha).
  vm_compute in Hs. injection Hs as <-. vm_compute in Ha. discriminate.
Defined.

Example registered_source_is_adapted :
  get_adapted Z example_registry "llama" (Some "hf") [("w", on_cpu (T0 1%Z))]
  = Ok [("model.w", on_cpu (T0 1%Z))].
Proof. reflexivity. Qed.

(** ** The lazy store *)

Definition lazy_bias : list (string * entry Z) :=
  set_lazy_tensor Z "head.bias" "ckpt/b.safetensors" cpu [].

Lemma lazy_tensor_resolved_once_witness :
  exists sd1,
    store_getitem Z example_fs "head.bias" lazy_bias
      = (Ok (on_cpu (T1 [5; 6]%Z)), sd1, [GetTensor "ckpt/b.safetensors" "head.bias" cpu])
    /\ dict_get "head.bias" sd1 = Some (Resolved (on_cpu (T1 [5; 6]%Z)))
    /\ dict_keys sd1 = dict_keys lazy_bias
    /\ store_getitem Z example_fs "head.bias" sd1 = (Ok (on_cpu (T1 [5; 6]%Z)), sd1, [])
    /\ forall n, 1 <= n ->
         read_times Z example_fs n "head.bias" lazy_bias
         = (sd1, [GetTensor "ckpt/b.safetensors" "head.bias" cpu]).
Proof.
  apply (lazy_tensor_resolved_once Z example_fs "head.bias" "ckpt/b.safetensors" cpu
           lazy_bias (on_cpu (T1 [5; 6]%Z))).
  - reflexivity.
  - reflexivity.
Defined.

(** A read that fails leaves the thunk in place, and the next read goes
    to the file again. *)
Example failed_read_is_retried :
  read_times Z example_fs 2 "gone" (set_lazy_tensor Z "gone" "ckpt/b.safetensors" cpu [])
  = ([("gone", Lazy "ckpt/b.safetensors" cpu)],
     [GetTensor "ckpt/b.safetensors" "gone" cpu; GetTensor "ckpt/b.safetensors" "gone" cpu]).
Proof. reflexivity. Qed.

(** ** Finding the files *)

(** The directory has two safetensors files and a pickle file. *)
Lemma directory_prefers_safetensors_witness :
  glob Z example_fs "ckpt" "*.bin" = ["ckpt/model.bin"]
  /\ load_state_dict Z example_fs (Some (PathObj "ckpt")) None None None cpu 0 1
     = opens_all Z example_fs ["ckpt/a.safetensors"; "ckpt/b.safetensors"]
         [IsDir "ckpt"; Glob "ckpt" "*.safetensors"; IsFile "ckpt"] cpu.
Proof.
  split; [reflexivity|].
  destruct (directory_prefers_safetensors Z example_fs (PathObj "ckpt") "ckpt"
              None None cpu 0 1) as [Hst _].
  - reflexivity.
  - discriminate.
  - right. repeat split; discriminate.
  - reflexivity.
  - reflexivity.
  - apply Hst. discriminate.
Defined.

Example safetensors_opened_in_sorted_order :
  load_state_dict Z example_fs (Some (PathObj "ckpt")) None None None cpu 0 1
  = (Ok two_shards,
     [IsDir "ckpt"; Glob "ckpt" "*.safetensors"; IsFile "ckpt";
      SafeOpenKeys "ckpt/a.safetensors"; SafeOpenKeys "ckpt/b.safetensors"]).
Proof. reflexivity. Qed.

(** C9, as stated, fails on the meta device, where no file is selected,
    and for a sharded checkpoint, where a rank opens one of the
    safetensors files only. *)
Lemma safetensors_not_all_selected :
  glob Z example_fs "ckpt" "*.safetensors" = ["ckpt/b.safetensors"; "ckpt/a.safetensors"]
  /\ glob Z example_fs "ckpt" "*.bin" = ["ckpt/model.bin"]
  /\ load_state_dict Z example_fs (Some (PathObj "ckpt")) None None None meta 0 1
     = (Ok (Dict []), [])
  /\ load_state_dict Z example_fs (Some (PathObj "ckpt")) None (Some "tp") (Some "tp") cpu 1 2
     = (Ok (ChainMap [[("head.bias", Lazy "ckpt/b.safetensors" cpu)]]),
        [IsDir "ckpt"; Glob "ckpt" "*.safetensors"; IsFile "ckpt";
         SafeOpenKeys "ckpt/b.safetensors"]).
Proof. repeat split. Qed.

(** Paths are sorted part by part, not as strings: a directory comes
    before another whose name goes on with a character below the
    separator. *)
Example paths_sorted_by_parts :
  sorted ["d/a-b/x.bin"; "d/a/x.bin"; "d/a.b/x.bin"]
  = ["d/a/x.bin"; "d/a-b/x.bin"; "d/a.b/x.bin"].
Proof. reflexivity. Qed.

Example hf_source_prefers_bin :
  (find_checkpoints Z example_fs "ckpt" "" (Some "hf")).1 = ["ckpt/model.bin"].
Proof. reflexivity. Qed.

(** ** Parameters that no name list mentions *)

Definition attention : tp_names := {|
  colwise_param_names := ["query"; "key"; "value"];
  rowwise_param_names := ["dense"];
  embedding_param_names := [] |}.

(** An attention block that is a [TPModule], with a norm inside that
    none of its lists names. *)
Definition tp_model : Obj :=
  Module None
    [("attn", Module (Some attention)
        [("query", Module None [("weight", Param 0)]);
         ("norm", Module None [("weight", Param 1)])])].


Example listed_param_is_sharded :
  exists h,
    load_key Z 0%Z model_dtype tp_model true 1 2 "attn.query.weight"
      (on_cpu (T2 2 [[1; 2]; [3; 4]; [5; 6]; [7; 8]]%Z)) (head_heap, [])
    = Done (h, []) /\ h 0 = T2 2 [[5; 6]; [7; 8]]%Z.
Proof. eexists. split; reflexivity. Qed.

(** * Worked examples for the further properties *)

(** ** The registry *)

Lemma register_adapter_twice_witness :
  register_adapter Z example_registry "llama" "hf" rename_adapter
  = Raise (KeyError "Variant hf already registered for architecture llama")
  /\ ~ registered Z ∅ "llama" "hf"
  /\ registered Z example_registry "llama" "hf".
Proof.
  apply (register_adapter_twice Z ∅ example_registry "llama" "hf"
           rename_adapter rename_adapter).
  reflexivity.
Defined.

Lemma register_adapter_lookup_witness :
  _get_adapter Z example_registry "llama" (Some "hf") = rename_adapter
  /\ forall architecture' source',
       (architecture', source') <> ("llama", "hf") ->
       _get_adapter Z example_registry architecture' (Some source')
       = _get_adapter Z ∅ architecture' (Some source').
Proof.
  apply (register_adapter_lookup Z ∅ example_registry "llama" "hf" rename_adapter).
  reflexivity.
Defined.

Lemma get_adapted_registered_witness :
  get_adapted Z example_registry "llama" (Some "hf") [] = Ok []
  /\ ([("w", on_cpu (T0 1%Z))] <> [] ->
      get_adapted Z example_registry "llama" (Some "hf") [("w", on_cpu (T0 1%Z))]
      = rename_adapter [("w", on_cpu (T0 1%Z))]).
Proof.
  apply (get_adapted_registered Z example_registry "llama" "hf"
           {[ "hf" := rename_adapter ]} rename_adapter).
  - reflexivity.
  - reflexivity.
Defined.

(** ** Copies *)

Lemma copies_keep_shape_witness :
  shape Z (T2 2 [[3; 4]]%Z) = shape Z (T2 2 [[0; 0]]%Z)
  /\ well_formed Z (T2 2 [[3; 4]]%Z).
Proof.
  apply (copies_keep_shape Z 0%Z same_dtype (T2 2 [[0; 0]]%Z) (T2 2 [[1; 2]; [3; 4]]%Z)
           (T2 2 [[3; 4]]%Z) false 1 2).
  right. left. reflexivity.
Defined.

Lemma colwise_rank_out_of_range_witness :
  _copy_colwise Z same_dtype (T2 2 [[0; 0]]%Z) (T2 2 [[1; 2]; [3; 4]]%Z) false 2 2
  = Raise RuntimeError.
Proof.
  apply (colwise_rank_out_of_range Z same_dtype (T2 2 [[0; 0]]%Z) 2 1 2 2 [[1; 2]; [3; 4]]%Z).
  - reflexivity.
  - lia.
  - lia.
  - reflexivity.
Defined.

(** ** Partial loads *)


Lemma partial_load_catches_attribute_errors_witness :
  _load_partial_state_dict Z 0%Z model_dtype head_model [("tail.weight", on_cpu (T1 [1; 2]%Z))]
    false 0 1 head_heap
  <> Raised AttributeError head_heap.
Proof.
  apply (partial_load_catches_attribute_errors Z 0%Z model_dtype head_model
           [("tail.weight", on_cpu (T1 [1; 2]%Z))] false 0 1 head_heap head_heap).
Defined.


(** A model whose layers are in a list. *)
Definition layered_model : Obj :=
  Module None [("layers", ModuleList [Module None [("weight", Param 0)]])].


(** [int] takes blanks around a literal and an underscore between two
    digits, and nothing else around the digits. *)
Example int_literals :
  py_int " 0" = Ok 0%Z /\ py_int "0_0" = Ok 0%Z /\ py_int "-1_2 " = Ok (-12)%Z
  /\ py_int "+007" = Ok 7%Z
  /\ py_int "_1" = Raise (InvalidLiteral "_1")
  /\ py_int "1__2" = Raise (InvalidLiteral "1__2")
  /\ py_int "1_" = Raise (InvalidLiteral "1_")
  /\ py_int "- 1" = Raise (InvalidLiteral "- 1")
  /\ py_int "1 2" = Raise (InvalidLiteral "1 2")
  /\ py_int "" = Raise (InvalidLiteral "").
Proof. repeat split. Qed.

Example index_past_the_layers :
  _load_partial_state_dict Z 0%Z model_dtype layered_model
    [("layers.3.weight", on_cpu (T1 [1; 2]%Z))] false 0 1 head_heap
  = Raised IndexError head_heap.
Proof. reflexivity. Qed.

Lemma load_key_colwise_weight_witness :
  load_key Z 0%Z model_dtype tp_model true 1 2 "attn.query.weight"
    (on_cpu (T2 2 [[1; 2]; [3; 4]; [5; 6]; [7; 8]]%Z)) (head_heap, [])
  = Done (<[0 := T2 2 (py_slice (1 * 2) ((1 + 1) * 2) [[1; 2]; [3; 4]; [5; 6]; [7; 8]]%Z)]>
            head_heap, []).
Proof.
  destruct (load_key_colwise_weight Z 0%Z model_dtype tp_model
              (Module None [("weight", Param 0)])
              attention 1 2 2 2 0 "attn.query.weight" "query" cpu
              [[1; 2]; [3; 4]; [5; 6]; [7; 8]]%Z head_heap []) as [_ Hexact].
  - reflexivity.
  - reflexivity.
  - discriminate.
  - reflexivity.
  - left.
  - intros Hin. repeat (apply elem_of_cons in Hin as [Hin|Hin]; [discriminate|]).
    by apply elem_of_nil in Hin.
  - intros Hin. by apply elem_of_nil in Hin.
  - repeat constructor.
  - reflexivity.
  - lia.
  - reflexivity.
  - apply Hexact. reflexivity.
Defined.

(** ** Stores and views *)

Lemma store_getitem_frame_witness :
  dict_keys [("head.bias", @Resolved Z (on_cpu (T1 [5; 6]%Z)))] = dict_keys lazy_bias
  /\ (forall k, k <> "head.bias" ->
        dict_get k [("head.bias", Resolved (on_cpu (T1 [5; 6]%Z)))] = dict_get k lazy_bias)
  /\ (forall e, Ok (on_cpu (T1 [5; 6]%Z)) = Raise e ->
        [("head.bias", Resolved (on_cpu (T1 [5; 6]%Z)))] = lazy_bias)
  /\ (dict_get "head.bias" lazy_bias = None ->
        Ok (on_cpu (T1 [5; 6]%Z)) = Raise (KeyError "head.bias")
        /\ [GetTensor "ckpt/b.safetensors" "head.bias" cpu] = []).
Proof.
  apply (store_getitem_frame Z example_fs "head.bias" lazy_bias).
  reflexivity.
Defined.

Lemma store_pop_resolves_thunk_witness :
  store_pop_default Z example_fs "head.bias" lazy_bias
  = (Ok tt, [], [GetTensor "ckpt/b.safetensors" "head.bias" cpu]).
Proof.
  apply (store_pop_resolves_thunk Z example_fs "head.bias" "ckpt/b.safetensors" cpu
           lazy_bias).
  reflexivity.
Defined.

Lemma lazy_state_dict_is_all_thunks_witness :
  exists sd,
    _load_safetensors_state_dict Z example_fs "ckpt/a.safetensors" cpu
    = (Ok sd, [SafeOpenKeys "ckpt/a.safetensors"])
    /\ (forall k, dict_get k sd
                  = if bool_decide (k ∈ ["head.weight"])
                    then Some (Lazy "ckpt/a.safetensors" cpu) else None)
    /\ (NoDup ["head.weight"] -> dict_keys sd = ["head.weight"]).
Proof.
  exact (lazy_state_dict_is_all_thunks Z example_fs "ckpt/a.safetensors" cpu).
Defined.

(** Two files that both hold the bias: the first one is read. *)
Lemma chain_reads_first_holder_witness :
  chain_getitem Z example_fs "head.bias"
    ([[("head.weight", Lazy "ckpt/a.safetensors" cpu)]]
       ++ [("head.bias", Lazy "ckpt/b.safetensors" cpu)]
       :: [[("head.bias", Lazy "ckpt/c.safetensors" cpu)]])
  = (Ok (on_cpu (T1 [5; 6]%Z)),
     [[("head.weight", Lazy "ckpt/a.safetensors" cpu)]]
       ++ [("head.bias", Resolved (on_cpu (T1 [5; 6]%Z)))]
       :: [[("head.bias", Lazy "ckpt/c.safetensors" cpu)]],
     [GetTensor "ckpt/b.safetensors" "head.bias" cpu]).
Proof.
  apply (chain_reads_first_holder Z example_fs "head.bias"
           [[("head.weight", Lazy "ckpt/a.safetensors" cpu)]]
           [[("head.bias", Lazy "ckpt/c.safetensors" cpu)]]
           [("head.bias", Lazy "ckpt/b.safetensors" cpu)]).
  - intros m0 Hm0. apply list_elem_of_singleton in Hm0. by subst.
  - by eexists.
Defined.

(** ** Finding and opening the files *)

Lemma checkpoint_not_found_witness :
  exists ev,
    load_state_dict Z example_fs (Some (PathObj "nowhere")) None None None cpu 0 1
    = (Raise AssertionError, ev)
    /\ Forall (fun e => opens_file e = false) ev.
Proof.
  apply (checkpoint_not_found Z example_fs (PathObj "nowhere") None None None cpu 0 1).
  - discriminate.
  - split; discriminate.
  - reflexivity.
  - left. reflexivity.
Defined.

Lemma sharded_checkpoint_opens_own_file_witness :
  load_state_dict Z example_fs (Some (PathObj "ckpt")) None (Some "tp") (Some "tp") cpu 1 2
  = (Ok (ChainMap [[("head.bias", Lazy "ckpt/b.safetensors" cpu)]]),
     [IsDir "ckpt"; Glob "ckpt" "*.safetensors"; IsFile "ckpt";
      SafeOpenKeys "ckpt/b.safetensors"]).
Proof.
  apply (sharded_checkpoint_opens_own_file Z example_fs (PathObj "ckpt") None (Some "tp")
           "tp" cpu 1 2 ["ckpt/a.safetensors"; "ckpt/b.safetensors"]
           [IsDir "ckpt"; Glob "ckpt" "*.safetensors"; IsFile "ckpt"]).
  - discriminate.
  - split; [discriminate|reflexivity].
  - discriminate.
  - reflexivity.
  - discriminate.
Defined.

Example sharded_checkpoint_world_size_mismatch :
  load_state_dict Z example_fs (Some (PathObj "ckpt")) None (Some "tp") (Some "tp") cpu 1 3
  = (Raise AssertionError, [IsDir "ckpt"; Glob "ckpt" "*.safetensors"; IsFile "ckpt"]).
Proof. reflexivity. Qed.

Lemma unsharded_fsdp_opens_on_rank_zero_witness :
  load_state_dict Z example_fs (Some (PathObj "ckpt")) None (Some "fsdp") None cpu 1 2
  = (Ok (Dict []), [IsDir "ckpt"; Glob "ckpt" "*.safetensors"; IsFile "ckpt"]).
Proof.
  apply (unsharded_fsdp_opens_on_rank_zero Z example_fs (PathObj "ckpt") None (Some "fsdp")
           cpu 1 2 "ckpt/a.safetensors" ["ckpt/b.safetensors"]
           [IsDir "ckpt"; Glob "ckpt" "*.safetensors"; IsFile "ckpt"]).
  - discriminate.
  - left. reflexivity.
  - reflexivity.
Defined.

Lemma unsharded_checkpoint_opens_all_witness :
  load_state_dict Z example_fs (Some (PathObj "ckpt")) None None None cpu 0 1
  = (Ok two_shards,
     [IsDir "ckpt"; Glob "ckpt" "*.safetensors"; IsFile "ckpt";
      SafeOpenKeys "ckpt/a.safetensors"; SafeOpenKeys "ckpt/b.safetensors"]).
Proof.
  apply (unsharded_checkpoint_opens_all Z example_fs (PathObj "ckpt") None None None
           cpu 0 1 "ckpt/a.safetensors" ["ckpt/b.safetensors"]
           [IsDir "ckpt"; Glob "ckpt" "*.safetensors"; IsFile "ckpt"]).
  - discriminate.
  - right. repeat split; discriminate.
  - reflexivity.
Defined.

(** The same files behind a path written with a trailing separator,
    which [Path] drops. *)
Definition example_fs_norm : filesystem Z := {|
  expanduser := fun p => if String.eqb p "ckpt/" then "ckpt" else p;
  is_dir := is_dir Z example_fs;
  is_file := is_file Z example_fs;
  glob := glob Z example_fs;
  suffix := suffix Z example_fs;
  safetensors_keys := safetensors_keys Z example_fs;
  get_tensor := get_tensor Z example_fs;
  torch_load := torch_load Z example_fs |}.

Lemma glob_overrides_source_witness :
  load_state_dict Z example_fs_norm (Some (StrPath "ckpt/*.bin")) (Some "meta") None None
                  cpu 0 1
  = load_state_dict Z example_fs_norm (Some (StrPath "ckpt/*.bin")) None None None cpu 0 1.
Proof.
  apply (glob_overrides_source Z example_fs_norm "ckpt/*.bin" (Some "meta") None).
  reflexivity.
Defined.

Example glob_selects_the_pickle :
  load_state_dict Z example_fs_norm (Some (StrPath "ckpt/*.bin")) (Some "meta") None None
                  cpu 0 1
  = (Ok (ChainMap [[("head.bias", Resolved (on_cpu (T1 [5; 6]%Z)))]]),
     [IsDir "ckpt"; Glob "ckpt" "*.bin"; IsFile "ckpt"; TorchLoad "ckpt/model.bin" cpu]).
Proof. reflexivity. Qed.

Lemma str_path_without_star_witness :
  load_state_dict Z example_fs (Some (StrPath "ckpt")) None None None cpu 0 1
  = load_state_dict Z example_fs (Some (PathObj "ckpt")) None None None cpu 0 1.
Proof.
  apply (str_path_without_star Z example_fs "ckpt").
  reflexivity.
Defined.

(** ** The loop *)

Definition hpu : device := {| dev_type := "hpu"; dev_index := Some 0 |}.

Definition bias_on_cpu_state : lstate Z :=
  {| st_model := head_heap;
     st_sd := Dict [("head.bias", Resolved (on_cpu (T1 [5; 6]%Z)))];
     st_io := []; st_used := ∅ |}.

Lemma gathered_tensors_on_initial_device_witness :
  (fun x : list (string * tensor Z) => Ok x)
    [("head.bias", {| t_device := hpu; t_data := T1 [5; 6]%Z |})]
  = Ok [("head.bias", {| t_device := hpu; t_data := T1 [5; 6]%Z |})]
  /\ Forall (fun kv : string * tensor Z => t_device kv.2 = hpu)
            [("head.bias", {| t_device := hpu; t_data := T1 [5; 6]%Z |})].
Proof.
  apply (gathered_tensors_on_initial_device Z example_fs (fun x => Ok x) hpu "head.bias"
           bias_on_cpu_state
           (gather Z example_fs (fun x => Ok x) hpu "head.bias" bias_on_cpu_state).2).
  reflexivity.
Defined.

(** An adapter that fuses three projections and asks for the other two
    when it is given one. *)
Definition qkv_adapter : adapter Z :=
  fun sd => if (length sd <? 3)%nat
            then Raise (FusableWeightsMissingError ["k"; "v"])
            else Ok [("qkv", on_cpu (T0 0%Z))].

Definition qk_state : lstate Z :=
  {| st_model := head_heap;
     st_sd := Dict [("q", Resolved (on_cpu (T0 1%Z))); ("k", Resolved (on_cpu (T0 2%Z)))];
     st_io := []; st_used := ∅ |}.

Lemma missing_weight_raises_key_error_witness :
  exists st',
    load_iteration Z 0%Z model_dtype example_fs head_model qkv_adapter false cpu 0 1 "q" qk_state
    = Raised (KeyError "v") st'
    /\ st_model st' = st_model qk_state
    /\ "v" ∈ st_used st'.
Proof.
  apply (missing_weight_raises_key_error Z 0%Z model_dtype example_fs head_model qkv_adapter false
           cpu 0 1 "q" "v" ["k"] [] (on_cpu (T0 1%Z))
           [("q", on_cpu (T0 1%Z)); ("k", on_cpu (T0 2%Z))] qk_state
           (fetch Z example_fs cpu "q" (add_used Z "q" qk_state)).2
           (gather_missing Z example_fs cpu ["k"] [("q", on_cpu (T0 1%Z))]
              (fetch Z example_fs cpu "q" (add_used Z "q" qk_state)).2).2).
  - reflexivity.
  - reflexivity.
  - reflexivity.
  - simpl. intros Hin.
    repeat (apply elem_of_cons in Hin as [Hin|Hin]; [discriminate|]).
    by apply elem_of_nil in Hin.
Defined.

Definition lazy_head : list (string * entry Z) :=
  [("head.weight", Lazy "ckpt/a.safetensors" cpu);
   ("head.bias", Lazy "ckpt/b.safetensors" cpu)].

Lemma dict_load_reads_each_thunk_once_witness :
  st_io (load_state_dict_into_model Z 0%Z model_dtype example_fs ∅ head_model head_heap
           (Dict lazy_head) "llama" None None None cpu 0 1).2
  = [GetTensor "ckpt/a.safetensors" "head.weight" cpu;
     GetTensor "ckpt/b.safetensors" "head.bias" cpu]
  /\ st_sd (load_state_dict_into_model Z 0%Z model_dtype example_fs ∅ head_model head_heap
              (Dict lazy_head) "llama" None None None cpu 0 1).2 = Dict [].
Proof.
  apply (dict_load_reads_each_thunk_once Z 0%Z model_dtype example_fs ∅ head_model head_heap
           lazy_head "llama" None None None cpu 0 1 PyNone).
  - unfold lazy_head, dict_keys. simpl. constructor.
    + intros Hin. apply list_elem_of_singleton in Hin. discriminate.
    + constructor; [apply not_elem_of_nil|constructor].
  - intros sd ms. discriminate.
  - rewrite (surjective_pairing (load_state_dict_into_model _ _ _ _ _ _ _ _ _ _ _ _ _ _ _)) at 1.
    f_equal.
Defined.
